(** * The static file responder of [server.js]

    A shallow embedding of the request handler passed to
    [http.createServer] in [server.js], together with the parts of the
    Node.js platform it calls: POSIX [path.join] and [path.extname],
    [String.prototype.toLowerCase], property lookup on an object literal,
    [fs.readFile] and the two response methods [res.writeHead] and
    [res.end].

    Conventions.
    - A JavaScript string is a [string]: a sequence of 8-bit code units,
      which is what the HTTP parser delivers as request target; names
      with code units above 255 are outside the model. A request target
      never holds the NUL character, the one content of a path on which
      [fs.readFile] throws instead of calling back, so reading is a call
      that always hands a result to its callback.
    - The handler is a [task]: a tree of platform calls with their
      continuations, so that the asynchronous callback of [fs.readFile]
      is the continuation of the [FsReadFile] call.
    - The file system is seen through [fs.readFile]: for each path the
      outcome a read of that path has. *)

From Stdlib Require Import Bool Arith ZArith Lia List.
From Stdlib Require Import Strings.Ascii Strings.String Strings.Byte.
Import ListNotations.

Local Open Scope list_scope.
Local Open Scope string_scope.

(** ** JavaScript values that can reach the [Content-Type] header *)

Module JS.

(** The result of [obj[key]] on an object literal whose own properties are
    strings: [undefined], an own string property, or a member inherited
    from [Object.prototype] (a function or an object, hence truthy). *)
Inductive value : Type :=
| Undefined
| Str (s : string)
| Inherited (name : string).

(** The property names every object literal inherits. *)
Definition Object_prototype : list string :=
  [ "constructor"; "hasOwnProperty"; "isPrototypeOf"; "propertyIsEnumerable";
    "toLocaleString"; "toString"; "valueOf"; "__proto__";
    "__defineGetter__"; "__defineSetter__"; "__lookupGetter__";
    "__lookupSetter__" ].

(** An object literal with string-valued properties, in source order. *)
Definition object := list (string * string).

Fixpoint own_property (o : object) (key : string) : option string :=
  match o with
  | [] => None
  | (k, v) :: rest => if (k =? key)%string then Some v else own_property rest key
  end.

Definition mem (key : string) (names : list string) : bool :=
  existsb (String.eqb key) names.

(** [o[key]] *)
Definition get (o : object) (key : string) : value :=
  match own_property o key with
  | Some v => Str v
  | None => if mem key Object_prototype then Inherited key else Undefined
  end.

Definition truthy (v : value) : bool :=
  match v with
  | Undefined => false
  | Str s => negb (s =? "")%string
  | Inherited _ => true
  end.

(** [a || b] *)
Definition or (a b : value) : value := if truthy a then a else b.

(** [String.prototype.toLowerCase] on one 8-bit code unit: [A]-[Z] and the
    upper-case letters of the Latin-1 block (U+00C0..U+00DE without the
    multiplication sign U+00D7) move up by 32; every other unit stays. *)
Definition lower_unit (c : ascii) : ascii :=
  let n := nat_of_ascii c in
  if (((65 <=? n) && (n <=? 90)) ||
      ((192 <=? n) && (n <=? 222) && negb (n =? 215)))%nat
  then ascii_of_nat (n + 32) else c.

Fixpoint toLowerCase (s : string) : string :=
  match s with
  | EmptyString => EmptyString
  | String c rest => String (lower_unit c) (toLowerCase rest)
  end.

End JS.

(** ** Node's POSIX [path] module *)

Module Path.

(** [s.split('/')] : the pieces of [s] between the slashes; there is
    always at least one piece. *)
Fixpoint split (s : string) : list string :=
  match s with
  | EmptyString => [""]
  | String c rest =>
      if Ascii.eqb c "/" then "" :: split rest
      else match split rest with
           | piece :: pieces => String c piece :: pieces
           | [] => [String c ""]
           end
  end.

(** The segment stack of [path.normalize]: empty pieces and [.] are
    dropped, [..] removes the segment before it when there is one that is
    not itself [..], and is otherwise kept only when the path is relative
    ([allowAboveRoot]). *)
Fixpoint normalizeArray (allowAboveRoot : bool) (res parts : list string)
  : list string :=
  match parts with
  | [] => res
  | p :: rest =>
      if (p =? "") || (p =? ".") then normalizeArray allowAboveRoot res rest
      else if p =? ".." then
        if negb (Nat.eqb (List.length res) 0) && negb (last res "" =? "..") then
          normalizeArray allowAboveRoot (removelast res) rest
        else if allowAboveRoot then
          normalizeArray allowAboveRoot (res ++ [".."])%list rest
        else normalizeArray allowAboveRoot res rest
      else normalizeArray allowAboveRoot (res ++ [p])%list rest
  end.

Definition isAbsolute (path : string) : bool :=
  match path with
  | String c _ => Ascii.eqb c "/"
  | EmptyString => false
  end.

Fixpoint endsWithSlash (path : string) : bool :=
  match path with
  | EmptyString => false
  | String c EmptyString => Ascii.eqb c "/"
  | String _ rest => endsWithSlash rest
  end.

(** [path.normalize(path)] *)
Definition normalize (path : string) : string :=
  if path =? "" then "."
  else
    let absolute := isAbsolute path in
    let trailingSeparator := endsWithSlash path in
    let body := String.concat "/" (normalizeArray (negb absolute) [] (split path)) in
    if body =? "" then
      if absolute then "/" else if trailingSeparator then "./" else "."
    else
      let body := if trailingSeparator then body ++ "/" else body in
      if absolute then "/" ++ body else body.

(** [path.join(a, b)] : the non-empty arguments are glued with a slash and
    the result is normalized. *)
Definition join (a b : string) : string :=
  if a =? "" then (if b =? "" then "." else normalize b)
  else if b =? "" then normalize a
  else normalize (a ++ "/" ++ b).

(** The last non-empty piece of a path: its final component, trailing
    slashes ignored. *)
Fixpoint last_component (pieces : list string) : option string :=
  match pieces with
  | [] => None
  | p :: rest =>
      match last_component rest with
      | Some c => Some c
      | None => if p =? "" then None else Some p
      end
  end.

(** The suffix of [s] that starts at its last [.], when it has one. *)
Fixpoint from_last_dot (s : string) : option string :=
  match s with
  | EmptyString => None
  | String c rest =>
      match from_last_dot rest with
      | Some e => Some e
      | None => if Ascii.eqb c "." then Some s else None
      end
  end.

(** The extension of one path component: from its last [.] to its end,
    where a [.] in first position does not count and [..] has none. *)
Definition component_ext (base : string) : string :=
  match base with
  | EmptyString => ""
  | String _ rest =>
      match from_last_dot rest with
      | Some e => if base =? ".." then "" else e
      | None => ""
      end
  end.

(** [path.extname(path)] *)
Definition extname (path : string) : string :=
  match last_component (split path) with
  | Some base => component_ext base
  | None => ""
  end.

End Path.

(** ** The platform calls of a request handler *)

(** The error object [fs.readFile] hands to its callback; the handler
    reads only its [code]. *)
Record error : Type := { code : string }.

(** The two arguments [(err, content)] of the [fs.readFile] callback:
    either an error, or no error and the bytes of the file. *)
Inductive read_result : Type :=
| ReadErr (err : error)
| ReadOk (content : list byte).

(** The argument of [res.end]: a string or a [Buffer]. *)
Inductive chunk : Type :=
| Text (s : string)
| Buffer (b : list byte).

Definition chunk_bytes (c : chunk) : list byte :=
  match c with
  | Text s => list_byte_of_string s
  | Buffer b => b
  end.

Definition headers := list (string * JS.value).

(** Calls into the platform, indexed by the type of what they hand back.
    [FsWriteFile] and [FsUnlink] stand for the mutating part of the [fs]
    module. *)
Inductive call : Type -> Type :=
| FsReadFile (path : string) : call read_result
| FsWriteFile (path : string) (data : list byte) : call unit
| FsUnlink (path : string) : call unit
| ResWriteHead (status : Z) (h : headers) : call unit
| ResEnd (body : chunk) : call unit.

(** A task: what a handler does, as platform calls and continuations. *)
Inductive task (A : Type) : Type :=
| Ret (a : A)
| Do {X : Type} (c : call X) (k : X -> task A).

Arguments Ret {A} a.
Arguments Do {A X} c k.

Notation "x <- c ;; k" := (Do c (fun x => k))
  (at level 61, c at next level, right associativity).
Notation "c ;;; k" := (Do c (fun _ => k))
  (at level 61, right associativity).

(** What a run leaves behind: one entry per call that went through,
    oldest first. *)
Inductive event : Type :=
| EvReadFile (path : string)
| EvWriteFile (path : string) (data : list byte)
| EvUnlink (path : string)
| EvWriteHead (status : Z) (h : headers)
| EvEnd (body : chunk).

(** The file system as [fs.readFile] sees it. *)
Definition disk := string -> read_result.

Record world : Type := { files : disk; log : list event }.

Definition record (w : world) (e : event) : world :=
  {| files := files w; log := (log w ++ [e])%list |}.

Definition ENOENT : error := {| code := "ENOENT" |}.

Definition update (d : disk) (path : string) (r : read_result) : disk :=
  fun p => if p =? path then r else d p.

(** [res.writeHead] throws on a status code outside 100..999, on a header
    value that is [undefined] or holds a character a header may not hold
    (anything but TAB, 0x20..0x7e and 0x80..0xff), and when the head has
    been written already. *)
Definition header_unit_ok (c : ascii) : bool :=
  let n := nat_of_ascii c in
  ((n =? 9) || ((32 <=? n) && (n <=? 126)) || (128 <=? n))%nat.

Fixpoint header_text_ok (s : string) : bool :=
  match s with
  | EmptyString => true
  | String c rest => header_unit_ok c && header_text_ok rest
  end.

Definition header_value_ok (v : JS.value) : bool :=
  match v with
  | JS.Undefined => false
  | JS.Str s => header_text_ok s
  | JS.Inherited _ => true
  end.

Definition is_head (e : event) : bool :=
  match e with
  | EvWriteHead _ _ => true
  | _ => false
  end.

Definition writeHead_ok (w : world) (status : Z) (h : headers) : bool :=
  (100 <=? status)%Z && (status <=? 999)%Z &&
  forallb (fun kv => header_value_ok (snd kv)) h &&
  negb (existsb is_head (log w)).

(** One platform call: what it hands back and the world after it, or
    [None] when the call throws. Reading leaves the files as they are. *)
Definition perform {X : Type} (c : call X) (w : world) : option (X * world) :=
  match c in call X return option (X * world) with
  | FsReadFile path => Some (files w path, record w (EvReadFile path))
  | FsWriteFile path data =>
      Some (tt, {| files := update (files w) path (ReadOk data);
                   log := (log w ++ [EvWriteFile path data])%list |})
  | FsUnlink path =>
      Some (tt, {| files := update (files w) path (ReadErr ENOENT);
                   log := (log w ++ [EvUnlink path])%list |})
  | ResWriteHead status h =>
      if writeHead_ok w status h
      then Some (tt, record w (EvWriteHead status h)) else None
  | ResEnd body => Some (tt, record w (EvEnd body))
  end.

(** How a task ends: it ran to its end, or a call threw and nothing
    caught it. *)
Inductive outcome (A : Type) : Type :=
| Completed (a : A) (w : world)
| Uncaught (w : world).

Arguments Completed {A} a w.
Arguments Uncaught {A} w.

Fixpoint run {A : Type} (t : task A) (w : world) : outcome A :=
  match t with
  | Ret a => Completed a w
  | Do c k =>
      match perform c w with
      | Some (x, w') => run (k x) w'
      | None => Uncaught w
      end
  end.

Definition world_of {A : Type} (o : outcome A) : world :=
  match o with
  | Completed _ w => w
  | Uncaught w => w
  end.

Definition completed {A : Type} (o : outcome A) : bool :=
  match o with
  | Completed _ _ => true
  | Uncaught _ => false
  end.

(** ** A POSIX volume behind [fs.readFile]

    Where it matters which resources exist, the file system is a volume:
    regular files and directories by absolute normalized path. Reading
    walks the names of the path from the root, as [open] does: a missing
    name gives [ENOENT], a name used as a directory that is a regular file
    gives [ENOTDIR], and a path that names a directory gives [EISDIR]. *)

Module Posix.

Inductive entry : Type :=
| RegularFile (content : list byte)
| Directory.

Definition volume := list (string * entry).

Fixpoint lookup (v : volume) (path : string) : option entry :=
  match v with
  | [] => None
  | (p, e) :: rest => if (p =? path)%string then Some e else lookup rest path
  end.

(** The entry a path names; the root, written [/] or as the empty prefix
    of its children, is always a directory. *)
Definition entry_at (v : volume) (path : string) : option entry :=
  if (path =? "") || (path =? "/") then Some Directory else lookup v path.

Definition ENOTDIR : error := {| code := "ENOTDIR" |}.
Definition EISDIR : error := {| code := "EISDIR" |}.

(** The names of a path: its pieces between slashes, empty ones left
    out. *)
Definition names (path : string) : list string :=
  filter (fun piece => negb (piece =? "")) (Path.split path).

(** One name further down. *)
Definition below (dir name : string) : string := dir ++ "/" ++ name.

(** Reading the file reached from [dir] by the names [rest]. *)
Fixpoint read_from (v : volume) (dir : string) (rest : list string)
    (trailing : bool) : read_result :=
  match rest with
  | [] => ReadErr EISDIR
  | name :: rest' =>
      match entry_at v (below dir name) with
      | None => ReadErr ENOENT
      | Some Directory => read_from v (below dir name) rest' trailing
      | Some (RegularFile content) =>
          match rest' with
          | [] => if trailing then ReadErr ENOTDIR else ReadOk content
          | _ :: _ => ReadErr ENOTDIR
          end
      end
  end.

(** [fs.readFile] on a volume, for absolute paths. *)
Definition readFile (v : volume) : disk :=
  fun path => read_from v "" (names path) (Path.endsWithSlash path).

(** The resource a path names, if there is one. *)
Definition resource (v : volume) (path : string) : option entry :=
  entry_at v (fold_left below (names path) "").

(** The directories a path lies in: every [dir] with
    [path = dir ++ "/" ++ name] for some [name]. *)
Fixpoint parents (path : string) : list string :=
  match path with
  | EmptyString => []
  | String c rest =>
      ((if Ascii.eqb c "/" then [""] else []) ++
       map (String c) (parents rest))%list
  end.

Definition is_directory (o : option entry) : bool :=
  match o with
  | Some Directory => true
  | _ => false
  end.

(** A volume is well formed when every entry lies in directories only. *)
Definition well_formed (v : volume) : bool :=
  forallb (fun pe => forallb (fun dir => is_directory (entry_at v dir))
                             (parents (fst pe))) v.

(** A volume with the site of the examples. *)
Definition home : volume :=
  [ ("/srv", Directory);
    ("/srv/site", Directory);
    ("/srv/site/index.html", RegularFile (list_byte_of_string "<h1>Hi</h1>")) ].

End Posix.

(** ** Regular expressions without captures

    A pattern of the form [/^r$/] with classes, concatenation, alternation
    and greedy repetition only: [test] says whether the whole input is in
    the language of [r], which the derivatives of [r] decide. *)

Module Regex.

Inductive re : Type :=
| Never
| Empty
| Class (p : ascii -> bool)
| Seq (r s : re)
| Alt (r s : re)
| Star (r : re).

(** [r+] *)
Definition Plus (r : re) : re := Seq r (Star r).

Fixpoint nullable (r : re) : bool :=
  match r with
  | Never => false
  | Empty => true
  | Class _ => false
  | Seq r s => nullable r && nullable s
  | Alt r s => nullable r || nullable s
  | Star _ => true
  end.

Fixpoint deriv (c : ascii) (r : re) : re :=
  match r with
  | Never => Never
  | Empty => Never
  | Class p => if p c then Empty else Never
  | Seq r s =>
      if nullable r then Alt (Seq (deriv c r) s) (deriv c s)
      else Seq (deriv c r) s
  | Alt r s => Alt (deriv c r) (deriv c s)
  | Star r => Seq (deriv c r) (Star r)
  end.

(** [/^r$/.test(s)] *)
Fixpoint test (r : re) (s : string) : bool :=
  match s with
  | EmptyString => nullable r
  | String c rest => test (deriv c r) rest
  end.

(** The language of a pattern. *)
Inductive lang : re -> string -> Prop :=
| lang_empty : lang Empty ""
| lang_class p c : p c = true -> lang (Class p) (String c "")
| lang_seq r s a b : lang r a -> lang s b -> lang (Seq r s) (a ++ b)
| lang_alt_l r s a : lang r a -> lang (Alt r s) a
| lang_alt_r r s a : lang s a -> lang (Alt r s) a
| lang_star_nil r : lang (Star r) ""
| lang_star_more r a b : lang r a -> lang (Star r) b -> lang (Star r) (a ++ b).

End Regex.

(** ** [js/main.js]: the contact form, the menu and the navbar *)

Module Main.

(** White space and line terminators among the 8-bit code units: what
    [\s] matches and [trim] strips. *)
Definition is_space (c : ascii) : bool :=
  let n := nat_of_ascii c in
  (((9 <=? n) && (n <=? 13)) || (n =? 32) || (n =? 160))%nat.

Fixpoint trimStart (s : string) : string :=
  match s with
  | EmptyString => ""
  | String c rest => if is_space c then trimStart rest else s
  end.

Fixpoint trimEnd (s : string) : string :=
  match s with
  | EmptyString => ""
  | String c rest =>
      match trimEnd rest with
      | EmptyString => if is_space c then "" else String c ""
      | kept => String c kept
      end
  end.

(** [s.trim()] *)
Definition trim (s : string) : string := trimEnd (trimStart s).

(** [[^\s@]] *)
Definition not_space_or_at (c : ascii) : bool :=
  negb (is_space c || Ascii.eqb c "@").

(** [/^[^\s@]+@[^\s@]+\.[^\s@]+$/] *)
Definition emailRegex : Regex.re :=
  Regex.Seq (Regex.Plus (Regex.Class not_space_or_at))
    (Regex.Seq (Regex.Class (Ascii.eqb "@"))
       (Regex.Seq (Regex.Plus (Regex.Class not_space_or_at))
          (Regex.Seq (Regex.Class (Ascii.eqb "."))
             (Regex.Plus (Regex.Class not_space_or_at))))).

Fixpoint all_units (p : ascii -> bool) (s : string) : bool :=
  match s with
  | EmptyString => true
  | String c rest => p c && all_units p rest
  end.

Fixpoint count_unit (c : ascii) (s : string) : nat :=
  match s with
  | EmptyString => 0
  | String x rest => (if Ascii.eqb x c then 1 else 0) + count_unit c rest
  end.

(** A non-empty run of code units that are neither white space nor
    [@]. *)
Definition is_word (s : string) : Prop :=
  s <> "" /\ all_units not_space_or_at s = true.

(** [local@domain.tail], each part a word. *)
Definition email_shape (v : string) : Prop :=
  exists l d t, v = l ++ "@" ++ d ++ "." ++ t /\
                is_word l /\ is_word d /\ is_word t.

(** What [validateField] reads of a form control: its value, whether it
    has the [required] attribute, and its [type]. *)
Record field : Type := { value : string; required : bool; type : string }.

(** What [validateField] changes around the control: whether the control
    carries the class [form-error-message], the texts of the [.form-error]
    elements inside the control's parent, in document order, and the
    [aria-invalid] attribute of the control. *)
Record marks : Type :=
  { flagged : bool; errors : list string; ariaInvalid : option string }.

(** The outcome of the checks of [validateField]: [isValid] and
    [errorMessage]. *)
Definition check (f : field) : bool * string :=
  let value := trim (value f) in
  let (isValid, errorMessage) := (true, "") in
  let (isValid, errorMessage) :=
    if required f && (value =? "")
    then (false, "This field is required") else (isValid, errorMessage) in
  if (type f =? "email") && negb (value =? "") then
    if negb (Regex.test emailRegex value)
    then (false, "Please enter a valid email address")
    else (isValid, errorMessage)
  else (isValid, errorMessage).

(** [validateField(field)] *)
Definition validateField (f : field) (m : marks) : marks * bool :=
  let (isValid, errorMessage) := check f in
  (* field.classList.remove('form-error-message') *)
  let m := {| flagged := false; errors := errors m;
              ariaInvalid := ariaInvalid m |} in
  (* the first .form-error of the parent, when there is one, is removed *)
  let m := {| flagged := flagged m; errors := tl (errors m);
              ariaInvalid := ariaInvalid m |} in
  let m :=
    if negb isValid then
      {| flagged := true; errors := (errors m ++ [errorMessage])%list;
         ariaInvalid := ariaInvalid m |}
    else m in
  (* field.setAttribute('aria-invalid', !isValid) *)
  ({| flagged := flagged m; errors := errors m;
      ariaInvalid := Some (if isValid then "false" else "true") |},
   isValid).

(** What the submit handler decides. *)
Inductive decision : Type :=
| Submitted            (* handleFormSubmission(contactForm) *)
| Focused (at_ : option nat).  (* the first flagged control, if any, gets focus *)

Fixpoint first_flagged (controls : list (field * marks)) (i : nat)
  : option nat :=
  match controls with
  | [] => None
  | (_, m) :: rest => if flagged m then Some i else first_flagged rest (S i)
  end.

(** The submit handler of the contact form on its controls, in document
    order, each with the marks around it (every control sits in a parent
    of its own): the controls that have [required] are validated one
    after the other, all of them, and the form is handed on when none
    failed. *)
Fixpoint validate_required (controls : list (field * marks))
  : list (field * marks) * bool :=
  match controls with
  | [] => ([], true)
  | (f, m) :: rest =>
      if required f then
        let (m', ok) := validateField f m in
        let (rest', isValid) := validate_required rest in
        ((f, m') :: rest', ok && isValid)
      else
        let (rest', isValid) := validate_required rest in
        ((f, m) :: rest', isValid)
  end.

Definition on_submit (controls : list (field * marks))
  : list (field * marks) * decision :=
  let (controls', isValid) := validate_required controls in
  if isValid then (controls', Submitted)
  else (controls', Focused (first_flagged controls' 0)).

(** The mobile menu: the [aria-expanded] attribute and the class [active]
    of the hamburger button, the class [active] of the link list, the
    [overflow] style of the body, and whether the button was given
    focus. *)
Record menu : Type :=
  { ariaExpanded : option string;
    hamburgerActive : bool;
    navActive : bool;
    bodyOverflow : string;
    hamburgerFocused : bool }.

(** The click handler of the hamburger button. *)
Definition on_hamburger_click (m : menu) : menu :=
  let isExpanded :=
    match ariaExpanded m with
    | Some v => v =? "true"
    | None => false
    end in
  {| ariaExpanded := Some (if negb isExpanded then "true" else "false");
     hamburgerActive := negb (hamburgerActive m);
     navActive := negb (navActive m);
     bodyOverflow := if isExpanded then "" else "hidden";
     hamburgerFocused := hamburgerFocused m |}.

(** The click handler of each link of the menu. *)
Definition on_link_click (m : menu) : menu :=
  {| ariaExpanded := Some "false";
     hamburgerActive := false;
     navActive := false;
     bodyOverflow := "";
     hamburgerFocused := hamburgerFocused m |}.

(** The [keydown] handler of the document. *)
Definition on_keydown (key : string) (m : menu) : menu :=
  if (key =? "Escape") && navActive m then
    {| ariaExpanded := Some "false";
       hamburgerActive := false;
       navActive := false;
       bodyOverflow := "";
       hamburgerFocused := true |}
  else m.

Inductive menu_event : Type :=
| HamburgerClick
| LinkClick
| KeyDown (key : string).

Definition menu_step (m : menu) (e : menu_event) : menu :=
  match e with
  | HamburgerClick => on_hamburger_click m
  | LinkClick => on_link_click m
  | KeyDown key => on_keydown key m
  end.

(** The menu is open, or closed, in all its parts at once. *)
Definition in_step (m : menu) : Prop :=
  hamburgerActive m = navActive m
  /\ (ariaExpanded m = Some "true" <-> navActive m = true)
  /\ bodyOverflow m = (if navActive m then "hidden" else "").







End Main.

(** ** [server.js] *)

Section Server.

(** [const STATIC_DIR = __dirname] *)
Variable STATIC_DIR : string.

Definition mimeTypes : JS.object :=
  [ (".html", "text/html");
    (".css", "text/css");
    (".js", "application/javascript");
    (".json", "application/json");
    (".png", "image/png");
    (".jpg", "image/jpeg");
    (".gif", "image/gif");
    (".svg", "image/svg+xml");
    (".ico", "image/x-icon");
    (".md", "text/markdown");
    (".txt", "text/plain") ].

(** [req.url === '/' ? '/index.html' : req.url] *)
Definition requested (url : string) : string :=
  if url =? "/" then "/index.html" else url.

(** [filePath] after [path.join(STATIC_DIR, filePath)] *)
Definition filePath (url : string) : string :=
  Path.join STATIC_DIR (requested url).

(** [path.extname(filePath).toLowerCase()] *)
Definition ext (path : string) : string :=
  JS.toLowerCase (Path.extname path).

(** [mimeTypes[ext] || 'application/octet-stream'] *)
Definition contentType (path : string) : JS.value :=
  JS.or (JS.get mimeTypes (ext path)) (JS.Str "application/octet-stream").

(** The callback given to [fs.readFile]. *)
Definition on_read (ctype : JS.value) (r : read_result) : task unit :=
  match r with
  | ReadErr err =>
      if code err =? "ENOENT" then
        ResWriteHead 404 [] ;;;
        ResEnd (Text "File not found") ;;;
        Ret tt
      else
        ResWriteHead 500 [] ;;;
        ResEnd (Text "Server error") ;;;
        Ret tt
  | ReadOk content =>
      ResWriteHead 200 [("Content-Type", ctype)] ;;;
      ResEnd (Buffer content) ;;;
      Ret tt
  end.

(** The request handler given to [http.createServer]. *)
Definition handler (url : string) : task unit :=
  let path := filePath url in
  let ctype := contentType path in
  r <- FsReadFile path ;;
  on_read ctype r.

(** One request served on the files [d], with a fresh log. *)
Definition serve (d : disk) (url : string) : outcome unit :=
  run (handler url) {| files := d; log := [] |}.

(** What was sent on [res]. *)
Definition is_response (e : event) : bool :=
  match e with
  | EvWriteHead _ _ | EvEnd _ => true
  | _ => false
  end.

Definition reply (d : disk) (url : string) : list event :=
  filter is_response (log (world_of (serve d url))).

(** The calls into the [fs] module. *)
Definition is_fs (e : event) : bool :=
  match e with
  | EvReadFile _ | EvWriteFile _ _ | EvUnlink _ => true
  | _ => false
  end.

(** The resource is absent: reading it fails with [ENOENT]. *)
Definition absent (d : disk) (path : string) : bool :=
  match d path with
  | ReadErr err => code err =? "ENOENT"
  | ReadOk _ => false
  end.

(** The status code of the first head written. *)
Fixpoint status_of (evs : list event) : option Z :=
  match evs with
  | [] => None
  | EvWriteHead status _ :: _ => Some status
  | _ :: rest => status_of rest
  end.

(** The extension as the words "from the last [.] to the end" describe
    it: the suffix of the whole path starting at its last [.], empty when
    there is none; lower-cased. *)
Definition suffix_after_last_dot (path : string) : string :=
  match Path.from_last_dot path with
  | Some e => e
  | None => ""
  end.

Definition described_ext (path : string) : string :=
  JS.toLowerCase (suffix_after_last_dot path).

(** A path lies within a directory when it is the directory or is below
    it. *)
Definition within (dir path : string) : Prop :=
  path = dir \/ String.prefix (dir ++ "/") path = true.

(** Does the code unit [c] occur in [s]? *)
Fixpoint occurs (c : ascii) (s : string) : bool :=
  match s with
  | EmptyString => false
  | String x rest => Ascii.eqb x c || occurs c rest
  end.

(** A name that [path.normalize] keeps as it is. *)
Definition plain (name : string) : bool :=
  negb (name =? "") && negb (name =? ".") && negb (name =? "..") &&
  negb (occurs "/" name).

(** The pieces [path.normalize] does not drop when it meets no [..]. *)
Definition kept (piece : string) : bool :=
  negb ((piece =? "") || (piece =? ".")).

(** The text [path.normalize] gives an absolute path whose stack is
    [segs]. *)
Definition render (segs : list string) (trailing : bool) : string :=
  let body := String.concat "/" segs in
  if body =? "" then "/"
  else "/" ++ (if trailing then body ++ "/" else body).

(** The directory names of the root, outermost first. *)
Definition root_stack : list string :=
  Path.normalizeArray false [] (Path.split STATIC_DIR).

(** The code units a request target is sure to carry unchanged: the
    visible ASCII characters, [#] left aside. *)
Definition target_unit (c : ascii) : bool :=
  let n := nat_of_ascii c in
  ((33 <=? n) && (n <=? 126) && negb (n =? 35))%nat.

(** [n] parent-directory segments: [/../..] and so on. *)
Fixpoint dotdots (n : nat) : string :=
  match n with
  | O => ""
  | S m => dotdots m ++ "/" ++ ".."
  end.

(** A small site: [index.html] and [app.js] can be read, [secret.txt] is
    there but may not be read, and nothing else exists. *)
Definition site : disk :=
  fun p =>
    if p =? "/srv/site/index.html" then ReadOk (list_byte_of_string "<h1>Hi</h1>")
    else if p =? "/srv/site/app.js" then ReadOk (list_byte_of_string "go()")
    else if p =? "/srv/site/LOGO.PNG" then ReadOk (list_byte_of_string "PNG")
    else if p =? "/srv/site/secret.txt" then ReadErr {| code := "EACCES" |}
    else ReadErr ENOENT.

(** ** Facts about the JavaScript values *)

Lemma own_property_In (o : JS.object) (key v : string) :
  JS.own_property o key = Some v -> In (key, v) o.
Proof.
  induction o as [|[k w] rest IH]; simpl; [discriminate|].
  destruct (String.eqb_spec k key) as [->|_].
  - intros [= ->]. now left.
  - intros H. right. now apply IH.
Qed.

Lemma lower_unit_dot (c : ascii) : JS.lower_unit c = "."%char <-> c = "."%char.
Proof.
  destruct c as [[] [] [] [] [] [] [] []]; vm_compute; split; congruence.
Qed.

Lemma lower_unit_slash (c : ascii) : JS.lower_unit c = "/"%char <-> c = "/"%char.
Proof.
  destruct c as [[] [] [] [] [] [] [] []]; vm_compute; split; congruence.
Qed.

Lemma from_last_dot_starts (s e : string) :
  Path.from_last_dot s = Some e -> exists t, e = String "." t.
Proof.
  induction s as [|c rest IH]; simpl; [discriminate|].
  destruct (Path.from_last_dot rest) as [e'|].
  - intros [= <-]. now apply IH.
  - destruct (Ascii.eqb_spec c ".") as [->|_]; [|discriminate].
    intros [= <-]. now exists rest.
Qed.

(** [path.extname] yields the empty string or a string that starts with
    a dot. *)
Lemma extname_shape (path : string) :
  Path.extname path = "" \/ exists t, Path.extname path = String "." t.
Proof.
  unfold Path.extname.
  destruct (Path.last_component (Path.split path)) as [base|]; [|now left].
  unfold Path.component_ext.
  destruct base as [|c rest]; [now left|].
  destruct (Path.from_last_dot rest) as [e|] eqn:He; [|now left].
  destruct (String c rest =? ".."); [now left|].
  right. eapply from_last_dot_starts; eassumption.
Qed.

Lemma ext_shape (path : string) :
  ext path = "" \/ exists t, ext path = String "." t.
Proof.
  unfold ext. destruct (extname_shape path) as [->|[t ->]].
  - now left.
  - right. now exists (JS.toLowerCase t).
Qed.

(** No member of [Object.prototype] is ever looked up: its names do not
    start with a dot and none is empty. *)
Lemma ext_not_inherited (path : string) :
  JS.mem (ext path) JS.Object_prototype = false.
Proof.
  destruct (ext_shape path) as [->|[t ->]]; reflexivity.
Qed.

Lemma mimeTypes_truthy (key v : string) :
  In (key, v) mimeTypes -> JS.truthy (JS.Str v) = true.
Proof.
  unfold mimeTypes; simpl.
  intros H; repeat (destruct H as [[= <- <-]|H]; [reflexivity|]); contradiction.
Qed.

Lemma mimeTypes_header_ok (key v : string) :
  In (key, v) mimeTypes -> header_text_ok v = true.
Proof.
  unfold mimeTypes; simpl.
  intros H; repeat (destruct H as [[= <- <-]|H]; [reflexivity|]); contradiction.
Qed.

(** The content type is the table's entry for the extension when there is
    one, and the fallback otherwise. *)
Lemma contentType_found (path v : string) :
  JS.own_property mimeTypes (ext path) = Some v ->
  contentType path = JS.Str v.
Proof.
  intros H. unfold contentType, JS.get. rewrite H.
  unfold JS.or. now rewrite (mimeTypes_truthy _ _ (own_property_In _ _ _ H)).
Qed.

Lemma contentType_fallback (path : string) :
  JS.own_property mimeTypes (ext path) = None ->
  contentType path = JS.Str "application/octet-stream".
Proof.
  intros H. unfold contentType, JS.get. rewrite H, ext_not_inherited.
  reflexivity.
Qed.

Lemma contentType_string (path : string) :
  exists mime, contentType path = JS.Str mime /\ header_text_ok mime = true.
Proof.
  destruct (JS.own_property mimeTypes (ext path)) as [v|] eqn:H.
  - exists v. split; [now apply contentType_found|].
    eapply mimeTypes_header_ok, own_property_In, H.
  - eexists. split; [now apply contentType_fallback|reflexivity].
Qed.

(** ** The three branches of the handler *)

Lemma serve_ok (d : disk) (url : string) (content : list byte) :
  d (filePath url) = ReadOk content ->
  serve d url =
  Completed tt
    {| files := d;
       log := [ EvReadFile (filePath url);
                EvWriteHead 200 [("Content-Type", contentType (filePath url))];
                EvEnd (Buffer content) ] |}.
Proof.
  intros H. unfold serve, handler. cbn [run perform files log record].
  rewrite H. cbn [on_read run perform].
  destruct (contentType_string (filePath url)) as (mime & -> & Hok).
  unfold writeHead_ok. cbn. rewrite Hok. reflexivity.
Qed.

Lemma serve_absent (d : disk) (url : string) (err : error) :
  d (filePath url) = ReadErr err -> code err = "ENOENT" ->
  serve d url =
  Completed tt
    {| files := d;
       log := [ EvReadFile (filePath url);
                EvWriteHead 404 [];
                EvEnd (Text "File not found") ] |}.
Proof.
  intros H Hc. unfold serve, handler. cbn [run perform files log record].
  rewrite H. cbn [on_read]. rewrite Hc. reflexivity.
Qed.

Lemma serve_failed (d : disk) (url : string) (err : error) :
  d (filePath url) = ReadErr err -> code err <> "ENOENT" ->
  serve d url =
  Completed tt
    {| files := d;
       log := [ EvReadFile (filePath url);
                EvWriteHead 500 [];
                EvEnd (Text "Server error") ] |}.
Proof.
  intros H Hc. unfold serve, handler. cbn [run perform files log record].
  rewrite H. cbn [on_read].
  apply String.eqb_neq in Hc. rewrite Hc. reflexivity.
Qed.

Lemma serve_cases (d : disk) (url : string) :
  exists status h body,
    serve d url =
    Completed tt
      {| files := d;
         log := [EvReadFile (filePath url); EvWriteHead status h; EvEnd body] |}
    /\ (status = 200 \/ status = 404 \/ status = 500)%Z.
Proof.
  destruct (d (filePath url)) as [err|content] eqn:H.
  - destruct (String.eqb_spec (code err) "ENOENT") as [Hc|Hc].
    + do 3 eexists. split; [eapply serve_absent; eassumption|]. auto.
    + do 3 eexists. split; [eapply serve_failed; eassumption|]. auto.
  - do 3 eexists. split; [eapply serve_ok; eassumption|]. auto.
Qed.

(** ** The responses *)

(** C1. When the file the request resolves to is read, the handler writes
    exactly one head, 200 with a [Content-Type] header holding the MIME
    type resolved for the path (always a string), and ends the response
    once with the bytes read, unchanged. *)
Theorem success_response (d : disk) (url : string) (content : list byte) :
  d (filePath url) = ReadOk content ->
  reply d url =
    [ EvWriteHead 200 [("Content-Type", contentType (filePath url))];
      EvEnd (Buffer content) ]
  /\ chunk_bytes (Buffer content) = content
  /\ (exists mime, contentType (filePath url) = JS.Str mime)
  /\ completed (serve d url) = true.
Proof.
  intros H. unfold reply. rewrite (serve_ok _ _ _ H). cbn.
  repeat split.
  destruct (contentType_string (filePath url)) as (mime & Hm & _).
  now exists mime.
Qed.

Lemma absent_reply (d : disk) (url : string) :
  absent d (filePath url) = true ->
  reply d url = [EvWriteHead 404 []; EvEnd (Text "File not found")].
Proof.
  unfold absent, reply.
  destruct (d (filePath url)) as [err|content] eqn:H; [|discriminate].
  intros Hc. apply String.eqb_eq in Hc.
  now rewrite (serve_absent _ _ _ H Hc).
Qed.

Lemma status_404_absent (d : disk) (url : string) :
  status_of (reply d url) = Some 404%Z <-> absent d (filePath url) = true.
Proof.
  unfold absent, reply.
  destruct (d (filePath url)) as [err|content] eqn:H.
  - destruct (String.eqb_spec (code err) "ENOENT") as [Hc|Hc].
    + rewrite (serve_absent _ _ _ H Hc). cbn. now split.
    + rewrite (serve_failed _ _ _ H Hc). cbn. split; discriminate.
  - rewrite (serve_ok _ _ _ H). cbn. split; discriminate.
Qed.

Lemma status_of_error (d : disk) (url : string) (err : error) :
  d (filePath url) = ReadErr err ->
  status_of (reply d url) = Some 404%Z \/ status_of (reply d url) = Some 500%Z.
Proof.
  intros H. unfold reply.
  destruct (String.eqb_spec (code err) "ENOENT") as [Hc|Hc].
  - rewrite (serve_absent _ _ _ H Hc). now left.
  - rewrite (serve_failed _ _ _ H Hc). now right.
Qed.

(** *** Reading on a volume *)

Lemma lookup_In (v : Posix.volume) (path : string) (e : Posix.entry) :
  Posix.lookup v path = Some e -> In (path, e) v.
Proof.
  induction v as [|[p x] rest IH]; simpl; [discriminate|].
  destruct (String.eqb_spec p path) as [->|_].
  - intros [= ->]. now left.
  - intros H. right. now apply IH.
Qed.

Lemma parents_below (dir name : string) :
  In dir (Posix.parents (Posix.below dir name)).
Proof.
  unfold Posix.below. induction dir as [|c dir IH].
  - simpl. now left.
  - cbn [append Posix.parents]. apply in_or_app. right.
    now apply in_map.
Qed.

(** In a well-formed volume whatever has an entry lies in a directory. *)
Lemma well_formed_parent (v : Posix.volume) (dir name : string)
    (e : Posix.entry) :
  Posix.well_formed v = true ->
  Posix.entry_at v (Posix.below dir name) = Some e ->
  Posix.entry_at v dir = Some Posix.Directory.
Proof.
  intros Hwf H. unfold Posix.entry_at in H.
  destruct ((Posix.below dir name =? "") || (Posix.below dir name =? "/"))
    eqn:E.
  - apply orb_true_iff in E as [E|E]; apply String.eqb_eq in E;
      unfold Posix.below in E.
    + destruct dir; discriminate.
    + destruct dir as [|c dir]; [reflexivity|].
      injection E as _ E. destruct dir; discriminate.
  - apply lookup_In in H. unfold Posix.well_formed in Hwf.
    rewrite forallb_forall in Hwf. specialize (Hwf _ H). cbn [fst] in Hwf.
    rewrite forallb_forall in Hwf.
    specialize (Hwf dir (parents_below dir name)).
    destruct (Posix.entry_at v dir) as [[|]|]; auto; discriminate.
Qed.

(** Below a missing name nothing exists. *)
Lemma missing_below (v : Posix.volume) (here : string) (rest : list string) :
  Posix.well_formed v = true ->
  Posix.entry_at v here = None ->
  Posix.entry_at v (fold_left Posix.below rest here) = None.
Proof.
  intros Hwf Hnone. induction rest as [|r rest IH] using rev_ind; [exact Hnone|].
  rewrite fold_left_app. cbn [fold_left].
  destruct (Posix.entry_at v (Posix.below (fold_left Posix.below rest here) r))
    as [e|] eqn:E; [|reflexivity].
  apply (well_formed_parent _ _ _ _ Hwf) in E. congruence.
Qed.

(** A read that succeeds has found a regular file at the path. *)
Lemma read_ok_resource (v : Posix.volume) (dir : string) (rest : list string)
    (trailing : bool) (content : list byte) :
  Posix.read_from v dir rest trailing = ReadOk content ->
  Posix.entry_at v (fold_left Posix.below rest dir) =
    Some (Posix.RegularFile content).
Proof.
  revert dir. induction rest as [|name rest IH]; intros dir;
    cbn [Posix.read_from fold_left]; [discriminate|].
  destruct (Posix.entry_at v (Posix.below dir name)) as [[c|]|] eqn:E;
    [|apply IH|discriminate].
  destruct rest as [|r rest]; [|discriminate].
  destruct trailing; [discriminate|]. intros [= <-]. exact E.
Qed.

(** A read that fails with [ENOENT] on a well-formed volume has found
    nothing at the path. *)
Lemma read_enoent_resource (v : Posix.volume) (dir : string)
    (rest : list string) (trailing : bool) (err : error) :
  Posix.well_formed v = true ->
  Posix.read_from v dir rest trailing = ReadErr err ->
  code err = "ENOENT" ->
  Posix.entry_at v (fold_left Posix.below rest dir) = None.
Proof.
  intros Hwf. revert dir. induction rest as [|name rest IH]; intros dir;
    cbn [Posix.read_from fold_left].
  - intros [= <-]. discriminate.
  - destruct (Posix.entry_at v (Posix.below dir name)) as [[c|]|] eqn:E.
    + destruct rest as [|r rest]; [destruct trailing|];
        try discriminate; intros [= <-]; discriminate.
    + apply IH.
    + intros _ _. now apply missing_below.
Qed.

(** C2, as the code has it. The reply is 404, with the non-empty text
    "File not found", when the read fails with [ENOENT] and only then. On
    a well-formed volume a 404 is given only for a resource that is
    absent; and an absent resource is answered 404 or 500: 500 when its
    path runs through a regular file and the read fails otherwise than
    with [ENOENT]. *)
Theorem not_found_on_enoent (d : disk) (v : Posix.volume) (url : string) :
  (absent d (filePath url) = true ->
     reply d url = [EvWriteHead 404 []; EvEnd (Text "File not found")]
     /\ chunk_bytes (Text "File not found") <> [])
  /\ (status_of (reply d url) = Some 404%Z <-> absent d (filePath url) = true)
  /\ (Posix.well_formed v = true ->
      status_of (reply (Posix.readFile v) url) = Some 404%Z ->
      Posix.resource v (filePath url) = None)
  /\ (Posix.resource v (filePath url) = None ->
      status_of (reply (Posix.readFile v) url) = Some 404%Z \/
      status_of (reply (Posix.readFile v) url) = Some 500%Z).
Proof.
  split; [|split; [|split]].
  - intros H. split; [now apply absent_reply|discriminate].
  - apply status_404_absent.
  - intros Hwf H. apply status_404_absent in H. unfold absent in H.
    destruct (Posix.readFile v (filePath url)) as [err|] eqn:E;
      [|discriminate].
    apply String.eqb_eq in H. unfold Posix.resource.
    exact (read_enoent_resource _ _ _ _ _ Hwf E H).
  - intros H.
    destruct (Posix.readFile v (filePath url)) as [err|content] eqn:E.
    + exact (status_of_error _ _ _ E).
    + apply read_ok_resource in E. unfold Posix.resource in H. congruence.
Qed.

(** C3. When the read fails for any reason other than [ENOENT], the reply
    is 500 with the non-empty text "Server error". *)
Theorem server_error_response (d : disk) (url : string) (err : error) :
  d (filePath url) = ReadErr err ->
  code err <> "ENOENT" ->
  reply d url = [EvWriteHead 500 []; EvEnd (Text "Server error")]
  /\ chunk_bytes (Text "Server error") <> [].
Proof.
  intros H Hc. unfold reply. rewrite (serve_failed _ _ _ H Hc). cbn.
  split; [reflexivity|discriminate].
Qed.

(** C6. A request for [/] is served as a request for [/index.html]: the
    same path is read and the same reply is given, whatever the files. *)
Theorem root_is_index (d : disk) :
  requested "/" = "/index.html"
  /\ filePath "/" = filePath "/index.html"
  /\ serve d "/" = serve d "/index.html"
  /\ reply d "/" = reply d "/index.html".
Proof.
  repeat split.
Qed.

(** C7. The handler is total: whatever the request path and whatever the
    read gives, it runs to its end without an uncaught fault and has
    written exactly one head, with status 200, 404 or 500, followed by
    exactly one end of response. *)
Theorem handler_total (d : disk) (url : string) :
  exists status h body,
    completed (serve d url) = true
    /\ reply d url = [EvWriteHead status h; EvEnd body]
    /\ (status = 200 \/ status = 404 \/ status = 500)%Z.
Proof.
  destruct (serve_cases d url) as (status & h & body & E & Hs).
  exists status, h, body. unfold reply. rewrite E. cbn. auto.
Qed.

(** C9. Serving a request leaves the files as they were, and the only
    calls made are one [fs.readFile], of the resolved path, and the
    writes of the reply. *)
Theorem handler_reads_only (d : disk) (url : string) :
  files (world_of (serve d url)) = d
  /\ filter is_fs (log (world_of (serve d url))) = [EvReadFile (filePath url)]
  /\ log (world_of (serve d url)) = EvReadFile (filePath url) :: reply d url.
Proof.
  destruct (serve_cases d url) as (status & h & body & E & _).
  unfold reply. rewrite E. cbn. auto.
Qed.

(** ** Facts about strings and paths *)

Lemma append_nil_r (s : string) : s ++ "" = s.
Proof. induction s; simpl; congruence. Qed.

Lemma append_assoc (a b c : string) : (a ++ b) ++ c = a ++ (b ++ c).
Proof. induction a; simpl; congruence. Qed.

Lemma length_append (a b : string) :
  String.length (a ++ b) = String.length a + String.length b.
Proof. induction a; simpl; congruence. Qed.

Lemma prefix_length (a b : string) :
  String.prefix a b = true -> String.length a <= String.length b.
Proof.
  revert b. induction a as [|c a IH]; intros [|c' b]; simpl; try lia; try discriminate.
  destruct (ascii_dec c c'); [|discriminate].
  intros H. apply IH in H. lia.
Qed.

(** A path shorter than the directory does not lie within it. *)
Lemma shorter_not_within (dir path : string) :
  String.length path < String.length dir -> ~ within dir path.
Proof.
  intros Hlt [->|H]; [lia|].
  apply prefix_length in H. rewrite length_append in H. lia.
Qed.

Lemma split_not_nil (s : string) : Path.split s <> [].
Proof.
  destruct s as [|c rest]; simpl; [discriminate|].
  destruct (Ascii.eqb c "/"); [discriminate|].
  destruct (Path.split rest); discriminate.
Qed.

(** Splitting distributes over a slash. *)
Lemma split_app (a b : string) :
  Path.split (a ++ "/" ++ b) = (Path.split a ++ Path.split b)%list.
Proof.
  change ("/" ++ b) with (String "/" b).
  induction a as [|c a IH]; [reflexivity|].
  cbn [append Path.split].
  destruct (Ascii.eqb c "/").
  - simpl. f_equal. exact IH.
  - rewrite IH. pose proof (split_not_nil a) as Hn.
    destruct (Path.split a); [contradiction|reflexivity].
Qed.

Lemma split_slash_free (s : string) :
  occurs "/" s = false -> Path.split s = [s].
Proof.
  induction s as [|c rest IH]; [reflexivity|].
  simpl. destruct (Ascii.eqb c "/"); simpl; [discriminate|].
  intros H. now rewrite (IH H).
Qed.

Lemma occurs_app (c : ascii) (a b : string) :
  occurs c (a ++ b) = occurs c a || occurs c b.
Proof.
  induction a as [|x a IH]; [reflexivity|].
  simpl. rewrite IH. now rewrite orb_assoc.
Qed.

Lemma slash_free_end (s : string) :
  occurs "/" s = false -> Path.endsWithSlash s = false.
Proof.
  induction s as [|c rest IH]; [reflexivity|].
  simpl. destruct (Ascii.eqb c "/"); simpl; [discriminate|].
  intros H. destruct rest; [reflexivity|]. now apply IH.
Qed.

Lemma endsWithSlash_app (a b : string) :
  b <> "" -> Path.endsWithSlash (a ++ b) = Path.endsWithSlash b.
Proof.
  intros Hb. induction a as [|c a IH]; [reflexivity|].
  cbn [append Path.endsWithSlash]. rewrite IH.
  destruct (a ++ b) eqn:E; [|reflexivity].
  destruct a; simpl in E; [contradiction|discriminate].
Qed.

Lemma isAbsolute_app (a b : string) :
  Path.isAbsolute a = true -> Path.isAbsolute (a ++ b) = true.
Proof. destruct a; simpl; [discriminate|auto]. Qed.

Lemma normalizeArray_app (above : bool) (res l1 l2 : list string) :
  Path.normalizeArray above res (l1 ++ l2)%list =
  Path.normalizeArray above (Path.normalizeArray above res l1) l2.
Proof.
  revert res. induction l1 as [|p l1 IH]; intros res; [reflexivity|].
  cbn [app Path.normalizeArray].
  destruct ((p =? "") || (p =? ".")); [apply IH|].
  destruct (p =? ".."); [|apply IH].
  destruct (negb (Nat.eqb (List.length res) 0) && negb (last res "" =? ".."));
    [apply IH|].
  destruct above; apply IH.
Qed.

Lemma plain_inv (name : string) :
  plain name = true ->
  name <> "" /\ (name =? "") = false /\ (name =? ".") = false /\
  (name =? "..") = false /\ occurs "/" name = false.
Proof.
  unfold plain. rewrite !andb_true_iff, !negb_true_iff.
  intros [[[H1 H2] H3] H4]. repeat split; auto.
  now apply String.eqb_neq.
Qed.

Lemma normalizeArray_plain (above : bool) (res l : list string) (name : string) :
  plain name = true ->
  Path.normalizeArray above res (l ++ [name])%list =
  (Path.normalizeArray above res l ++ [name])%list.
Proof.
  intros H. apply plain_inv in H as (_ & H1 & H2 & H3 & _).
  rewrite normalizeArray_app. cbn [Path.normalizeArray].
  now rewrite H1, H2, H3.
Qed.

Lemma concat_snoc (sep : string) (l : list string) (x : string) :
  l <> [] ->
  String.concat sep (l ++ [x])%list = String.concat sep l ++ sep ++ x.
Proof.
  induction l as [|a l IH]; [contradiction|]. intros _.
  destruct l as [|b l].
  - reflexivity.
  - change (String.concat sep ((a :: b :: l) ++ [x])%list)
      with (a ++ sep ++ String.concat sep ((b :: l) ++ [x])%list).
    rewrite IH by discriminate.
    change (String.concat sep (a :: b :: l))
      with (a ++ sep ++ String.concat sep (b :: l)).
    now rewrite !append_assoc.
Qed.

(** A path that ends with a plain name after a slash, as a stack with
    that name on top. *)
Lemma rendered_snoc (l : list string) (name : string) :
  exists dir, "/" ++ String.concat "/" (l ++ [name])%list = dir ++ "/" ++ name.
Proof.
  destruct l as [|a l].
  - now exists "".
  - exists ("/" ++ String.concat "/" (a :: l)).
    rewrite concat_snoc by discriminate. now rewrite append_assoc.
Qed.

Lemma last_component_snoc (l : list string) (name : string) :
  name <> "" -> Path.last_component (l ++ [name])%list = Some name.
Proof.
  intros Hn. apply String.eqb_neq in Hn.
  induction l as [|a l IH]; simpl; [now rewrite Hn|now rewrite IH].
Qed.

(** The extension of a path is the extension of its final component. *)
Lemma extname_final (dir name : string) :
  name <> "" -> occurs "/" name = false ->
  Path.extname (dir ++ "/" ++ name) = Path.component_ext name.
Proof.
  intros Hn Hs. unfold Path.extname.
  now rewrite split_app, (split_slash_free _ Hs), last_component_snoc.
Qed.

Lemma extname_single (name : string) :
  occurs "/" name = false -> Path.extname name = Path.component_ext name.
Proof.
  intros Hs. unfold Path.extname. rewrite (split_slash_free _ Hs). simpl.
  destruct (String.eqb_spec name "") as [->|_]; reflexivity.
Qed.

(** Every path is free of slashes or ends with a slash-free piece after
    its last slash. *)
Lemma last_slash (path : string) :
  occurs "/" path = false \/
  exists dir name, path = dir ++ "/" ++ name /\ occurs "/" name = false.
Proof.
  induction path as [|c rest [IH|(dir & name & -> & Hs)]].
  - now left.
  - simpl. destruct (Ascii.eqb_spec c "/") as [->|_].
    + right. now exists "", rest.
    + now left.
  - right. now exists (String c dir), name.
Qed.

Lemma from_last_dot_none (s : string) :
  occurs "." s = false <-> Path.from_last_dot s = None.
Proof.
  induction s as [|c rest IH]; simpl; [tauto|].
  destruct (Path.from_last_dot rest) as [e|].
  - destruct IH as [IH _]. split; [|discriminate].
    rewrite orb_false_iff. intros [_ H]. now apply IH.
  - destruct IH as [_ IH]. rewrite (IH eq_refl), orb_false_r.
    destruct (Ascii.eqb c "."); split; congruence.
Qed.

Lemma from_last_dot_app_r (a b e : string) :
  Path.from_last_dot b = Some e -> Path.from_last_dot (a ++ b) = Some e.
Proof.
  intros H. induction a as [|c a IH]; [exact H|]. simpl. now rewrite IH.
Qed.

Lemma from_last_dot_ext (a t : string) :
  occurs "." t = false ->
  Path.from_last_dot (a ++ String "." t) = Some (String "." t).
Proof.
  intros H. apply from_last_dot_app_r. simpl.
  apply from_last_dot_none in H. now rewrite H.
Qed.

Lemma component_ext_app (stem t : string) :
  stem <> "" -> stem ++ String "." t <> ".." -> occurs "." t = false ->
  Path.component_ext (stem ++ String "." t) = String "." t.
Proof.
  intros Hs Hne Hd. destruct stem as [|c stem]; [contradiction|].
  unfold Path.component_ext. cbn [append] in *.
  rewrite (from_last_dot_ext _ _ Hd).
  destruct (String.eqb_spec (String c (stem ++ String "." t)) "..") as [E|_];
    [contradiction|reflexivity].
Qed.

Lemma component_ext_none (base : string) :
  occurs "." base = false -> Path.component_ext base = "".
Proof.
  destruct base as [|c rest]; [reflexivity|]. simpl.
  rewrite orb_false_iff. intros [_ H].
  apply from_last_dot_none in H. now rewrite H.
Qed.

Lemma component_ext_leading (t : string) :
  occurs "." t = false -> Path.component_ext (String "." t) = "".
Proof.
  intros H. unfold Path.component_ext.
  apply from_last_dot_none in H. now rewrite H.
Qed.

Lemma lower_starts (s r : string) :
  JS.toLowerCase s = String "." r ->
  exists t, s = String "." t /\ JS.toLowerCase t = r.
Proof.
  destruct s as [|c t]; simpl; [discriminate|].
  intros [= Hc Ht]. apply (proj1 (lower_unit_dot c)) in Hc. subst c.
  now exists t.
Qed.

Lemma occurs_lower_dot (s : string) :
  occurs "." (JS.toLowerCase s) = occurs "." s.
Proof.
  induction s as [|c s IH]; [reflexivity|]. simpl. rewrite IH. f_equal.
  destruct (Ascii.eqb_spec c ".") as [->|Hc]; [reflexivity|].
  apply Ascii.eqb_neq. intros H. now apply (proj1 (lower_unit_dot c)) in H.
Qed.

Lemma occurs_lower_slash (s : string) :
  occurs "/" (JS.toLowerCase s) = occurs "/" s.
Proof.
  induction s as [|c s IH]; [reflexivity|]. simpl. rewrite IH. f_equal.
  destruct (Ascii.eqb_spec c "/") as [->|Hc]; [reflexivity|].
  apply Ascii.eqb_neq. intros H. now apply (proj1 (lower_unit_slash c)) in H.
Qed.

(** Every key of the table is a dot followed by a non-empty run of units
    without dot or slash, and is listed once. *)
Lemma mimeTypes_key (E mime : string) :
  In (E, mime) mimeTypes ->
  JS.own_property mimeTypes E = Some mime /\
  exists r, E = String "." r /\ r <> "" /\
            occurs "." r = false /\ occurs "/" r = false.
Proof.
  unfold mimeTypes; simpl.
  intros H;
    repeat (destruct H as [[= <- <-]|H];
            [split; [reflexivity|eexists; repeat split; discriminate]|]);
    contradiction.
Qed.

Lemma plain_with_ext (stem t : string) :
  stem <> "" -> t <> "" ->
  occurs "/" stem = false -> occurs "/" t = false ->
  plain (stem ++ String "." t) = true.
Proof.
  intros Hs Ht Hs1 Hs2. unfold plain.
  rewrite occurs_app, Hs1. cbn [occurs]. rewrite Hs2.
  assert (Hlen : 3 <= String.length (stem ++ String "." t)).
  { rewrite length_append. destruct stem, t; simpl; try contradiction; lia. }
  assert (Hne : forall s, String.length s < 3 ->
                          (stem ++ String "." t =? s) = false).
  { intros s Hlt. apply String.eqb_neq. intros E. rewrite E in Hlen. lia. }
  rewrite !Hne by (simpl; lia). reflexivity.
Qed.

Lemma normalize_absolute (path : string) :
  Path.isAbsolute path = true ->
  Path.normalize path =
  let body := String.concat "/" (Path.normalizeArray false [] (Path.split path)) in
  if body =? "" then "/"
  else "/" ++ (if Path.endsWithSlash path then body ++ "/" else body).
Proof.
  intros H. unfold Path.normalize. rewrite H.
  destruct path; [discriminate|]. reflexivity.
Qed.

Lemma concat_snoc_not_empty (l : list string) (name : string) :
  name <> "" -> String.concat "/" (l ++ [name])%list <> "".
Proof.
  intros Hn. destruct l as [|a l]; [exact Hn|].
  rewrite concat_snoc by discriminate.
  destruct (String.concat "/" (a :: l)); discriminate.
Qed.

(** In an absolute path no [..] stays on the stack. *)
Lemma normalizeArray_no_dotdot (res parts : list string) :
  Forall (fun seg => seg <> "..") res ->
  Forall (fun seg => seg <> "..") (Path.normalizeArray false res parts).
Proof.
  revert res. induction parts as [|p parts IH]; intros res Hres; [exact Hres|].
  cbn [Path.normalizeArray].
  destruct ((p =? "") || (p =? ".")); [now apply IH|].
  destruct (String.eqb_spec p "..") as [->|Hp].
  - destruct (negb (Nat.eqb (List.length res) 0) && negb (last res "" =? ".."));
      [|now apply IH].
    apply IH. destruct res as [|a res]; [constructor|].
    rewrite (app_removelast_last "" (l := a :: res)) in Hres by discriminate.
    now apply Forall_app in Hres.
  - apply IH. apply Forall_app. split; [exact Hres|]. now constructor.
Qed.

(** A parent-directory segment pops the stack of an absolute path. *)
Lemma normalizeArray_pop (S : list string) (x : string) :
  x <> ".." ->
  Path.normalizeArray false (S ++ [x])%list [""; ".."] = S.
Proof.
  intros Hx. apply String.eqb_neq in Hx.
  cbn [Path.normalizeArray String.eqb orb]. change (".." =? "..") with true.
  rewrite last_last, Hx, removelast_last, length_app. cbn [List.length].
  replace (List.length S + 1) with (Datatypes.S (List.length S)) by lia.
  reflexivity.
Qed.

(** The rendering of a popped stack is shorter than that of the stack. *)
Lemma popped_shorter (S : list string) (x tail : string) :
  String.concat "/" (S ++ [x])%list <> "" ->
  String.length
    (if String.concat "/" S =? "" then "/" else "/" ++ String.concat "/" S)
  < String.length ("/" ++ String.concat "/" (S ++ [x])%list ++ tail).
Proof.
  intros E. destruct S as [|b S].
  - simpl in E |- *. destruct x; [contradiction|]. simpl. lia.
  - rewrite concat_snoc by discriminate.
    destruct (String.concat "/" (b :: S) =? "");
      cbn [String.length append]; rewrite ?length_append;
      cbn [String.length]; lia.
Qed.

Section Resolution.

(** [__dirname] is an absolute path. *)
Hypothesis STATIC_DIR_absolute : Path.isAbsolute STATIC_DIR = true.

Lemma STATIC_DIR_not_empty : (STATIC_DIR =? "") = false.
Proof. destruct STATIC_DIR; [discriminate|reflexivity]. Qed.

(** A request target other than [/] and the empty string is joined onto
    the root as it stands. *)
Lemma filePath_join (url : string) :
  url <> "/" -> url <> "" ->
  filePath url = Path.normalize (STATIC_DIR ++ "/" ++ url).
Proof.
  intros H1 H2. apply String.eqb_neq in H1, H2.
  unfold filePath, requested, Path.join.
  now rewrite H1, H2, STATIC_DIR_not_empty.
Qed.

(** A request target that ends with a plain name resolves to a path that
    ends with that name. *)
Lemma filePath_plain (pre name : string) :
  plain name = true ->
  filePath (pre ++ "/" ++ name) =
  "/" ++ String.concat "/"
           (Path.normalizeArray false [] (Path.split (STATIC_DIR ++ "/" ++ pre))
              ++ [name])%list.
Proof.
  intros Hp. pose proof (plain_inv _ Hp) as (Hn & _ & _ & _ & Hs).
  rewrite filePath_join.
  - rewrite normalize_absolute by now apply isAbsolute_app.
    cbv zeta.
    replace (STATIC_DIR ++ "/" ++ pre ++ "/" ++ name)
      with ((STATIC_DIR ++ "/" ++ pre) ++ "/" ++ name)
      by now rewrite !append_assoc.
    rewrite split_app, (split_slash_free _ Hs), normalizeArray_plain by exact Hp.
    rewrite endsWithSlash_app by discriminate.
    change ("/" ++ name) with (String "/" name). cbn [Path.endsWithSlash].
    destruct name as [|c name]; [contradiction|].
    rewrite (slash_free_end _ Hs).
    match goal with |- (if ?b =? "" then _ else _) = _ =>
      destruct (String.eqb_spec b "") as [E|_]; [|reflexivity] end.
    now apply concat_snoc_not_empty in E.
  - destruct pre as [|c [|]]; destruct name; simpl; congruence.
  - destruct pre; discriminate.
Qed.

Lemma filePath_final (pre name : string) :
  plain name = true ->
  exists dir, filePath (pre ++ "/" ++ name) = dir ++ "/" ++ name.
Proof.
  intros Hp. rewrite (filePath_plain _ _ Hp). apply rendered_snoc.
Qed.

Lemma filePath_last_component (pre name : string) :
  plain name = true ->
  Path.last_component (Path.split (filePath (pre ++ "/" ++ name))) = Some name.
Proof.
  intros Hp. destruct (filePath_final pre name Hp) as [dir ->].
  apply plain_inv in Hp as (Hn & _ & _ & _ & Hs).
  now rewrite split_app, (split_slash_free _ Hs), last_component_snoc.
Qed.

Lemma filePath_extname (pre name : string) :
  plain name = true ->
  Path.extname (filePath (pre ++ "/" ++ name)) = Path.component_ext name.
Proof.
  intros Hp. unfold Path.extname. now rewrite filePath_last_component.
Qed.

Lemma plain_ext_only (t : string) :
  t <> "" -> occurs "." t = false -> occurs "/" t = false ->
  plain (String "." t) = true.
Proof.
  intros Ht Hdot Hslash. unfold plain. cbn [occurs]. rewrite Hslash.
  destruct t as [|c t]; [contradiction|].
  simpl in Hdot. apply orb_false_iff in Hdot as [Hc _].
  simpl. now rewrite Hc.
Qed.

(** C4, as the code has it. The table has the eleven listed extensions,
    and a successful request for a file whose name is a non-empty stem
    followed by one of them, in any mix of upper and lower case, is
    answered with the type the table maps the extension to. A file whose
    whole name is such an extension has no extension for [path.extname]
    and gets the fallback type. *)
Theorem table_lookup (d : disk) (E mime pre stem E' : string)
    (content : list byte) :
  In (E, mime) mimeTypes ->
  JS.toLowerCase E' = E ->
  stem <> "" -> occurs "/" stem = false ->
  d (filePath (pre ++ "/" ++ stem ++ E')) = ReadOk content ->
  map fst mimeTypes =
    [".html"; ".css"; ".js"; ".json"; ".png"; ".jpg"; ".gif"; ".svg";
     ".ico"; ".md"; ".txt"]
  /\ ext (filePath (pre ++ "/" ++ stem ++ E')) = E
  /\ reply d (pre ++ "/" ++ stem ++ E') =
       [EvWriteHead 200 [("Content-Type", JS.Str mime)]; EvEnd (Buffer content)]
  /\ ext (filePath (pre ++ "/" ++ E')) = ""
  /\ contentType (filePath (pre ++ "/" ++ E')) =
       JS.Str "application/octet-stream".
Proof.
  intros HE Hlow Hstem Hfree Hread.
  destruct (mimeTypes_key _ _ HE) as (Hown & r & -> & Hr & Hdot & Hslash).
  destruct (lower_starts _ _ Hlow) as (t & -> & <-).
  rewrite occurs_lower_dot in Hdot. rewrite occurs_lower_slash in Hslash.
  assert (Ht : t <> "") by (intros ->; now apply Hr).
  assert (Hext : ext (filePath (pre ++ "/" ++ stem ++ String "." t)) =
                 JS.toLowerCase (String "." t)).
  { unfold ext. rewrite filePath_extname by now apply plain_with_ext.
    rewrite component_ext_app; auto.
    intros E. apply (f_equal String.length) in E.
    rewrite length_append in E. destruct stem, t; simpl in E; try lia;
      contradiction. }
  assert (Hbare : ext (filePath (pre ++ "/" ++ String "." t)) = "").
  { unfold ext. rewrite filePath_extname by now apply plain_ext_only.
    now rewrite component_ext_leading. }
  split; [reflexivity|]. split; [exact Hext|]. split; [|split].
  - unfold reply. rewrite (serve_ok _ _ _ Hread).
    rewrite (contentType_found _ mime) by now rewrite Hext.
    reflexivity.
  - exact Hbare.
  - apply contentType_fallback. now rewrite Hbare.
Qed.

(** C10. The request target is resolved as it stands: only the exact
    string [/] is replaced, and a query string stays in the file name. A
    request for [/index.html?v=1] reads the file named [index.html?v=1]
    and is answered 404 when that file is absent, although [/index.html]
    is there and is served. *)
Theorem query_string_in_name (d : disk) (content : list byte) :
  d (filePath "/index.html") = ReadOk content ->
  absent d (filePath "/index.html?v=1") = true ->
  (forall url, url <> "/" -> requested url = url)
  /\ filePath "/index.html?v=1" = Path.join STATIC_DIR "/index.html?v=1"
  /\ Path.last_component (Path.split (filePath "/index.html?v=1")) =
       Some "index.html?v=1"
  /\ reply d "/index.html?v=1" =
       [EvWriteHead 404 []; EvEnd (Text "File not found")]
  /\ reply d "/index.html" =
       [EvWriteHead 200 [("Content-Type", JS.Str "text/html")];
        EvEnd (Buffer content)].
Proof.
  intros Hread Habs. split; [|split; [|split; [|split]]].
  - intros url Hu. unfold requested. apply String.eqb_neq in Hu. now rewrite Hu.
  - reflexivity.
  - exact (filePath_last_component "" "index.html?v=1" eq_refl).
  - unfold absent in Habs.
    destruct (d (filePath "/index.html?v=1")) as [err|] eqn:H; [|discriminate].
    apply String.eqb_eq in Habs.
    unfold reply. now rewrite (serve_absent _ _ _ H Habs).
  - unfold reply. rewrite (serve_ok _ _ _ Hread).
    rewrite (contentType_found _ "text/html"); [reflexivity|].
    unfold ext.
    change "/index.html" with ("" ++ "/" ++ "index.html").
    now rewrite (filePath_extname "" "index.html" eq_refl).
Qed.

(** C8. The resolved path is the join of the request target onto the
    root and nothing more. For a root that is a normalized path other than
    [/], there is a request target with a parent-directory segment whose
    resolved path lies outside the root. *)
Theorem traversal_escapes :
  Path.normalize STATIC_DIR = STATIC_DIR ->
  STATIC_DIR <> "/" ->
  (forall url, filePath url = Path.join STATIC_DIR (requested url))
  /\ exists url, In ".." (Path.split url) /\ ~ within STATIC_DIR (filePath url).
Proof.
  intros Hnorm Hroot. split; [reflexivity|].
  exists "/..". split; [simpl; auto|].
  apply shorter_not_within.
  rewrite filePath_join by discriminate.
  rewrite normalize_absolute by now apply isAbsolute_app.
  rewrite split_app, normalizeArray_app.
  rewrite endsWithSlash_app by discriminate.
  rewrite normalize_absolute in Hnorm by exact STATIC_DIR_absolute.
  pose proof (normalizeArray_no_dotdot [] (Path.split STATIC_DIR) (Forall_nil _))
    as Hdd.
  cbv zeta in *.
  set (S := Path.normalizeArray false [] (Path.split STATIC_DIR)) in *.
  destruct (String.eqb_spec (String.concat "/" S) "") as [E|E];
    [now symmetry in Hnorm|].
  assert (HS : S <> []) by (intros HS; rewrite HS in E; now apply E).
  destruct (exists_last HS) as (S' & x & HSx). rewrite HSx in *. clear HSx HS.
  apply Forall_app in Hdd as [_ Hlast]. inversion_clear Hlast as [|? ? Hx _].
  change (Path.split "/..") with [""; ".."].
  rewrite (normalizeArray_pop S' x Hx).
  change (Path.endsWithSlash ("/" ++ "/..")) with false. cbv iota.
  destruct (Path.endsWithSlash STATIC_DIR); rewrite <- Hnorm.
  - apply popped_shorter. exact E.
  - rewrite <- (append_nil_r (String.concat "/" (S' ++ [x])%list)).
    apply popped_shorter. exact E.
Qed.

End Resolution.

(** ** The extension *)

Lemma last_component_In (l : list string) (b : string) :
  Path.last_component l = Some b -> In b l.
Proof.
  induction l as [|a l IH]; simpl; [discriminate|].
  destruct (Path.last_component l) as [c|].
  - intros [= <-]. right. now apply IH.
  - destruct (a =? ""); [discriminate|]. intros [= <-]. now left.
Qed.

Lemma last_component_trailing (l : list string) :
  Path.last_component (l ++ [""])%list = Path.last_component l.
Proof.
  induction l as [|a l IH]; [reflexivity|]. simpl. now rewrite IH.
Qed.

(** A trailing slash does not change the extension. *)
Lemma extname_trailing (path : string) :
  Path.extname (path ++ "/") = Path.extname path.
Proof.
  unfold Path.extname.
  change (path ++ "/") with (path ++ "/" ++ "").
  rewrite split_app. change (Path.split "") with [""].
  now rewrite last_component_trailing.
Qed.

Lemma split_dot_free (path : string) :
  occurs "." path = false ->
  Forall (fun piece => occurs "." piece = false) (Path.split path).
Proof.
  induction path as [|c rest IH]; [now repeat constructor|].
  cbn [occurs Path.split]. rewrite orb_false_iff. intros [Hc Hrest].
  specialize (IH Hrest).
  destruct (Ascii.eqb c "/").
  - now constructor.
  - destruct (Path.split rest) as [|piece pieces].
    + constructor; [simpl; now rewrite Hc|constructor].
    + inversion_clear IH as [|? ? Hp Hps].
      constructor; [|exact Hps]. simpl. now rewrite Hc, Hp.
Qed.

Lemma extname_no_dot (path : string) :
  occurs "." path = false -> Path.extname path = "".
Proof.
  intros H. unfold Path.extname.
  destruct (Path.last_component (Path.split path)) as [base|] eqn:E;
    [|reflexivity].
  apply component_ext_none.
  apply last_component_In in E.
  pose proof (split_dot_free _ H) as Hall.
  rewrite Forall_forall in Hall. now apply Hall.
Qed.

Lemma component_ext_some (base : string) :
  Path.component_ext base <> "" ->
  Path.from_last_dot base = Some (Path.component_ext base).
Proof.
  destruct base as [|c rest]; [now intros []|].
  unfold Path.component_ext. cbn [Path.from_last_dot].
  destruct (Path.from_last_dot rest) as [e|]; [|now intros []].
  destruct (String c rest =? ".."); [now intros []|reflexivity].
Qed.

(** Where a path has an extension and no trailing slash, the extension
    is the suffix of the whole path from its last dot. *)
Lemma extname_described (path : string) :
  Path.extname path <> "" -> Path.endsWithSlash path = false ->
  Path.from_last_dot path = Some (Path.extname path).
Proof.
  intros Hext Hend.
  destruct (last_slash path) as [Hfree|(dir & name & -> & Hfree)].
  - rewrite (extname_single _ Hfree) in *. now apply component_ext_some.
  - destruct (String.eqb_spec name "") as [->|Hn].
    + rewrite endsWithSlash_app in Hend by discriminate. discriminate.
    + rewrite (extname_final _ _ Hn Hfree) in *.
      apply from_last_dot_app_r, (from_last_dot_app_r "/").
      now apply component_ext_some.
Qed.

(** C5, as the code has it. The extension is that of the final component
    of the path, trailing slashes ignored: the part of the component from
    its last dot on, and nothing when the component has no dot, has its
    only dot in first position, or is [..]; lower-cased. Where there is an
    extension and no trailing slash this is the suffix of the path from
    its last dot. An extension that is not in the table, and so every
    path without a dot, gets [application/octet-stream]. *)
Theorem extension_fallback (path : string) :
  (forall dir base, base <> "" -> occurs "/" base = false ->
     path = dir ++ "/" ++ base ->
     ext path = JS.toLowerCase (Path.component_ext base)
     /\ ext (path ++ "/") = ext path)
  /\ (forall stem t, stem <> "" -> stem ++ String "." t <> ".." ->
        occurs "." t = false ->
        Path.component_ext (stem ++ String "." t) = String "." t)
  /\ (forall t, occurs "." t = false ->
        Path.component_ext t = "" /\ Path.component_ext (String "." t) = "")
  /\ Path.component_ext ".." = ""
  /\ (Path.extname path <> "" -> Path.endsWithSlash path = false ->
        ext path = described_ext path)
  /\ (JS.own_property mimeTypes (ext path) = None ->
        contentType path = JS.Str "application/octet-stream")
  /\ (occurs "." path = false ->
        contentType path = JS.Str "application/octet-stream").
Proof.
  split; [|split; [|split; [|split; [|split; [|split]]]]].
  - intros dir base Hb Hfree ->. unfold ext.
    now rewrite extname_trailing, extname_final.
  - intros stem t. apply component_ext_app.
  - intros t Ht. split; [now apply component_ext_none|].
    now apply component_ext_leading.
  - reflexivity.
  - intros Hext Hend. unfold ext, described_ext, suffix_after_last_dot.
    now rewrite (extname_described _ Hext Hend).
  - apply contentType_fallback.
  - intros H. apply contentType_fallback. unfold ext.
    now rewrite (extname_no_dot _ H).
Qed.

(** ** More on resolution *)

Lemma split_slash_free_all (s : string) :
  Forall (fun piece => occurs "/" piece = false) (Path.split s).
Proof.
  induction s as [|c rest IH]; [now repeat constructor|].
  cbn [Path.split]. destruct (Ascii.eqb c "/") eqn:Ec.
  - now constructor.
  - destruct (Path.split rest) as [|piece pieces].
    + constructor; [simpl; now rewrite Ec|constructor].
    + inversion_clear IH as [|? ? Hp Hps].
      constructor; [|exact Hps]. simpl. now rewrite Ec, Hp.
Qed.

Lemma plain_intro (p : string) :
  (p =? "") || (p =? ".") = false -> (p =? "..") = false ->
  occurs "/" p = false -> plain p = true.
Proof.
  unfold plain. rewrite orb_false_iff. intros [-> ->] -> ->. reflexivity.
Qed.

(** The stack of an absolute path holds plain names only. *)
Lemma normalizeArray_all_plain (res parts : list string) :
  Forall (fun seg => plain seg = true) res ->
  Forall (fun piece => occurs "/" piece = false) parts ->
  Forall (fun seg => plain seg = true) (Path.normalizeArray false res parts).
Proof.
  revert res. induction parts as [|p parts IH]; intros res Hres Hparts;
    [exact Hres|].
  inversion_clear Hparts as [|? ? Hp Hrest].
  cbn [Path.normalizeArray].
  destruct ((p =? "") || (p =? ".")) eqn:E1; [now apply IH|].
  destruct (p =? "..") eqn:E2.
  - destruct (negb (Nat.eqb (List.length res) 0) && negb (last res "" =? ".."));
      [|now apply IH].
    apply IH; [|exact Hrest]. destruct res as [|a res]; [constructor|].
    rewrite (app_removelast_last "" (l := a :: res)) in Hres by discriminate.
    now apply Forall_app in Hres.
  - apply IH; [|exact Hrest]. apply Forall_app. split; [exact Hres|].
    constructor; [|constructor]. now apply plain_intro.
Qed.

(** Plain names are pushed as they come. *)
Lemma normalizeArray_plains (above : bool) (res l : list string) :
  Forall (fun seg => plain seg = true) l ->
  Path.normalizeArray above res l = (res ++ l)%list.
Proof.
  revert res. induction l as [|p l IH]; intros res Hl.
  - now rewrite app_nil_r.
  - inversion_clear Hl as [|? ? Hp Hrest].
    apply plain_inv in Hp as (_ & H1 & H2 & H3 & _).
    cbn [Path.normalizeArray]. rewrite H1, H2, H3. cbn [orb].
    rewrite (IH _ Hrest). now rewrite <- app_assoc.
Qed.

(** Without [..] the stack only grows. *)
Lemma normalizeArray_grow (above : bool) (res parts : list string) :
  ~ In ".." parts ->
  Path.normalizeArray above res parts = (res ++ filter kept parts)%list.
Proof.
  revert res. induction parts as [|p parts IH]; intros res Hno.
  - now rewrite app_nil_r.
  - cbn [Path.normalizeArray filter]. unfold kept at 1.
    assert (Hp : (p =? "..") = false).
    { apply String.eqb_neq. intros ->. apply Hno. now left. }
    assert (Hrest : ~ In ".." parts) by (intros H; apply Hno; now right).
    destruct ((p =? "") || (p =? ".")); cbn [negb].
    + now apply IH.
    + rewrite Hp, (IH _ Hrest). now rewrite <- app_assoc.
Qed.

Lemma split_concat (segs : list string) :
  segs <> [] -> Forall (fun seg => occurs "/" seg = false) segs ->
  Path.split (String.concat "/" segs) = segs.
Proof.
  induction segs as [|a segs IH]; [contradiction|]. intros _ Hall.
  inversion_clear Hall as [|? ? Ha Hrest].
  destruct segs as [|b segs].
  - now apply split_slash_free.
  - change (String.concat "/" (a :: b :: segs))
      with (a ++ "/" ++ String.concat "/" (b :: segs)).
    rewrite split_app, (split_slash_free _ Ha), IH by (discriminate || exact Hrest).
    reflexivity.
Qed.

Lemma concat_app (l1 l2 : list string) :
  l1 <> [] -> l2 <> [] ->
  String.concat "/" (l1 ++ l2)%list =
  String.concat "/" l1 ++ "/" ++ String.concat "/" l2.
Proof.
  intros H1 H2. induction l1 as [|a l1 IH]; [contradiction|].
  destruct l1 as [|b l1].
  - destruct l2; [contradiction|reflexivity].
  - change (String.concat "/" ((a :: b :: l1) ++ l2)%list)
      with (a ++ "/" ++ String.concat "/" ((b :: l1) ++ l2)%list).
    rewrite IH by discriminate.
    change (String.concat "/" (a :: b :: l1))
      with (a ++ "/" ++ String.concat "/" (b :: l1)).
    now rewrite !append_assoc.
Qed.

Lemma concat_plain_not_empty (segs : list string) :
  segs <> [] -> Forall (fun seg => plain seg = true) segs ->
  String.concat "/" segs <> "".
Proof.
  intros Hne Hall. destruct segs as [|a segs]; [contradiction|].
  inversion_clear Hall as [|? ? Ha _]. apply plain_inv in Ha as (Ha & _).
  destruct segs; simpl; destruct a; try contradiction; discriminate.
Qed.

Lemma plain_slash_free (segs : list string) :
  Forall (fun seg => plain seg = true) segs ->
  Forall (fun seg => occurs "/" seg = false) segs.
Proof.
  apply Forall_impl. intros seg H. now apply plain_inv in H.
Qed.

Lemma normalize_render (path : string) :
  Path.isAbsolute path = true ->
  Path.normalize path =
  render (Path.normalizeArray false [] (Path.split path))
         (Path.endsWithSlash path).
Proof. apply normalize_absolute. Qed.

Lemma render_absolute (segs : list string) (trailing : bool) :
  Path.isAbsolute (render segs trailing) = true.
Proof.
  unfold render. now destruct (String.concat "/" segs =? "").
Qed.

(** Rendering a stack of plain names and normalizing the text gives the
    text back. *)
Lemma render_not_empty (segs : list string) (trailing : bool) :
  String.concat "/" segs <> "" ->
  render segs trailing =
  "/" ++ (if trailing then String.concat "/" segs ++ "/"
          else String.concat "/" segs).
Proof.
  intros H. unfold render.
  now destruct (String.eqb_spec (String.concat "/" segs) "").
Qed.

Lemma plain_stack_end (segs : list string) :
  segs <> [] -> Forall (fun seg => plain seg = true) segs ->
  Path.endsWithSlash ("/" ++ String.concat "/" segs) = false.
Proof.
  intros Hne Hall.
  rewrite endsWithSlash_app by now apply concat_plain_not_empty.
  destruct (exists_last Hne) as (l' & x & ->).
  apply Forall_app in Hall as [_ Hx]. inversion_clear Hx as [|? ? Hx' _].
  apply plain_inv in Hx' as (Hx1 & _ & _ & _ & Hx2).
  destruct l' as [|b l'].
  - now apply slash_free_end.
  - rewrite concat_snoc by discriminate.
    rewrite endsWithSlash_app by discriminate.
    rewrite (endsWithSlash_app "/" x) by exact Hx1.
    now apply slash_free_end.
Qed.

(** Rendering a stack of plain names and normalizing the text gives the
    text back. *)
Lemma normalize_of_render (segs : list string) (trailing : bool) :
  Forall (fun seg => plain seg = true) segs ->
  Path.normalize (render segs trailing) = render segs trailing.
Proof.
  intros Hall. destruct segs as [|a segs]; [reflexivity|].
  set (l := a :: segs) in *.
  assert (Hne : l <> []) by discriminate.
  pose proof (concat_plain_not_empty l Hne Hall) as Hbody.
  pose proof (split_concat l Hne (plain_slash_free _ Hall)) as Hsplit.
  pose proof (plain_stack_end l Hne Hall) as Hend.
  rewrite (render_not_empty l trailing Hbody).
  destruct trailing.
  - rewrite normalize_render by reflexivity.
    replace ("/" ++ String.concat "/" l ++ "/")
      with (("" ++ "/" ++ String.concat "/" l) ++ "/" ++ "")
      by reflexivity.
    rewrite !split_app, Hsplit. change (Path.split "") with [""].
    rewrite endsWithSlash_app by discriminate.
    change (Path.endsWithSlash ("/" ++ "")) with true.
    cbn [app Path.normalizeArray String.eqb orb].
    rewrite normalizeArray_app, (normalizeArray_plains _ _ _ Hall).
    cbn [app Path.normalizeArray String.eqb orb].
    now rewrite (render_not_empty l true Hbody).
  - rewrite normalize_render by reflexivity. rewrite Hend.
    change ("/" ++ String.concat "/" l) with ("" ++ "/" ++ String.concat "/" l).
    rewrite split_app, Hsplit. change (Path.split "") with [""].
    cbn [app Path.normalizeArray String.eqb orb].
    rewrite (normalizeArray_plains _ _ _ Hall). cbn [app].
    now rewrite (render_not_empty l false Hbody).
Qed.

Lemma all_units_app (p : ascii -> bool) (a b : string) :
  Main.all_units p (a ++ b) = Main.all_units p a && Main.all_units p b.
Proof.
  induction a as [|c a IH]; [reflexivity|].
  simpl. now rewrite IH, andb_assoc.
Qed.

Lemma prefix_app (a b : string) : String.prefix a (a ++ b) = true.
Proof.
  induction a as [|c a IH]; simpl; [now destruct b|].
  destruct (ascii_dec c c); [exact IH|contradiction].
Qed.

Lemma within_below (dir rest : string) : within dir (dir ++ "/" ++ rest).
Proof.
  right. rewrite <- append_assoc. apply prefix_app.
Qed.

Lemma length_dotdots (n : nat) : String.length (dotdots n) = 3 * n.
Proof.
  induction n as [|n IH]; [reflexivity|].
  cbn [dotdots]. rewrite length_append, IH. simpl. lia.
Qed.

Lemma split_dotdots (n : nat) : Path.split (dotdots n) = "" :: repeat ".." n.
Proof.
  induction n as [|n IH]; [reflexivity|].
  cbn [dotdots]. rewrite split_app, IH.
  change (Path.split "..") with [".."].
  change ((("" :: repeat ".." n) ++ [".."])%list)
    with ("" :: (repeat ".." n ++ [".."])%list).
  f_equal. clear IH. induction n as [|n IH]; [reflexivity|].
  simpl. now rewrite IH.
Qed.

Lemma normalizeArray_up (S rest : list string) (x : string) :
  x <> ".." ->
  Path.normalizeArray false (S ++ [x])%list (".." :: rest) =
  Path.normalizeArray false S rest.
Proof.
  intros Hx. apply String.eqb_neq in Hx.
  cbn [Path.normalizeArray]. change (".." =? "..") with true.
  change ((".." =? "") || (".." =? ".")) with false. cbv iota.
  rewrite last_last, Hx, removelast_last, length_app. cbn [List.length].
  replace (List.length S + 1) with (Datatypes.S (List.length S)) by lia.
  reflexivity.
Qed.

(** As many [..] as the stack is high empty it. *)
Lemma normalizeArray_climb (S rest : list string) :
  Forall (fun seg => seg <> "..") S ->
  Path.normalizeArray false S (repeat ".." (List.length S) ++ rest)%list =
  Path.normalizeArray false [] rest.
Proof.
  induction S as [|x S IH] using rev_ind; intros Hdd; [reflexivity|].
  apply Forall_app in Hdd as [HS Hx]. inversion_clear Hx as [|? ? Hx' _].
  rewrite length_app. cbn [List.length].
  replace (List.length S + 1) with (Datatypes.S (List.length S)) by lia.
  cbn [repeat app]. rewrite (normalizeArray_up _ _ _ Hx'). now apply IH.
Qed.

Section Reach.

(** [__dirname] is an absolute path. *)
Hypothesis STATIC_DIR_absolute : Path.isAbsolute STATIC_DIR = true.

Lemma root_stack_plain : Forall (fun seg => plain seg = true) root_stack.
Proof.
  apply normalizeArray_all_plain; [constructor|apply split_slash_free_all].
Qed.

Lemma requested_not_empty (url : string) : url <> "" -> requested url <> "".
Proof.
  intros H. unfold requested. now destruct (url =? "/").
Qed.

(** The path read, as a rendered stack. *)
Lemma filePath_render (url : string) :
  url <> "" ->
  filePath url =
  render (Path.normalizeArray false root_stack (Path.split (requested url)))
         (Path.endsWithSlash (requested url)).
Proof.
  intros Hu. apply requested_not_empty in Hu.
  unfold filePath, Path.join.
  rewrite (STATIC_DIR_not_empty STATIC_DIR_absolute).
  apply String.eqb_neq in Hu. rewrite Hu. apply String.eqb_neq in Hu.
  rewrite normalize_render by now apply isAbsolute_app.
  rewrite split_app, normalizeArray_app.
  rewrite endsWithSlash_app by discriminate.
  rewrite (endsWithSlash_app "/") by exact Hu. reflexivity.
Qed.

Lemma filePath_empty : filePath "" = Path.normalize STATIC_DIR.
Proof.
  unfold filePath, Path.join.
  now rewrite (STATIC_DIR_not_empty STATIC_DIR_absolute).
Qed.

Lemma filePath_rendered (url : string) :
  exists segs trailing,
    Forall (fun seg => plain seg = true) segs /\
    filePath url = render segs trailing.
Proof.
  destruct (String.eqb_spec url "") as [->|Hu].
  - do 2 eexists. split; [apply root_stack_plain|].
    rewrite filePath_empty. now apply normalize_render.
  - do 2 eexists. split; [|now apply filePath_render].
    apply normalizeArray_all_plain;
      [apply root_stack_plain|apply split_slash_free_all].
Qed.

(** The path handed to [fs.readFile] is always absolute and in normal
    form: it has no empty, [.] or [..] segment left. *)
Theorem resolved_normalized (url : string) :
  Path.isAbsolute (filePath url) = true
  /\ Path.normalize (filePath url) = filePath url.
Proof.
  destruct (filePath_rendered url) as (segs & trailing & Hall & ->).
  split; [apply render_absolute|now apply normalize_of_render].
Qed.

Lemma root_is_rendered :
  Path.normalize STATIC_DIR = STATIC_DIR ->
  Path.endsWithSlash STATIC_DIR = false ->
  String.concat "/" root_stack <> "" /\
  STATIC_DIR = "/" ++ String.concat "/" root_stack.
Proof.
  intros Hnorm Hend.
  rewrite normalize_render, Hend in Hnorm by exact STATIC_DIR_absolute.
  fold root_stack in Hnorm. unfold render in Hnorm.
  destruct (String.eqb_spec (String.concat "/" root_stack) "") as [E|E].
  - rewrite <- Hnorm in Hend. discriminate.
  - now split.
Qed.

(** A request target without a [..] segment is resolved within the root:
    parent-directory segments are the only way out. *)
Theorem contained_without_dotdot (url : string) :
  Path.normalize STATIC_DIR = STATIC_DIR ->
  Path.endsWithSlash STATIC_DIR = false ->
  ~ In ".." (Path.split url) ->
  within STATIC_DIR (filePath url).
Proof.
  intros Hnorm Hend Hno.
  destruct (root_is_rendered Hnorm Hend) as [Hbody Hroot].
  destruct (String.eqb_spec url "") as [->|Hu].
  - left. now rewrite filePath_empty.
  - assert (Hno' : ~ In ".." (Path.split (requested url))).
    { unfold requested. destruct (String.eqb_spec url "/") as [->|_];
        [|exact Hno].
      simpl. intros [H|[H|[]]]; discriminate. }
    rewrite (filePath_render url Hu), (normalizeArray_grow _ _ _ Hno').
    set (extra := filter kept (Path.split (requested url))).
    set (t := Path.endsWithSlash (requested url)).
    assert (Hre : root_stack <> [])
      by (intros E; rewrite E in Hbody; now apply Hbody).
    destruct extra as [|e extra].
    + rewrite app_nil_r, (render_not_empty _ t Hbody).
      set (c := String.concat "/" root_stack) in *. clearbody c.
      rewrite Hroot.
      destruct t; [exact (within_below ("/" ++ c) "")|now left].
    + unfold render.
      rewrite (concat_app root_stack (e :: extra)) by (assumption || discriminate).
      set (c := String.concat "/" root_stack) in *.
      set (x := String.concat "/" (e :: extra)). clearbody c x.
      destruct (String.eqb_spec (c ++ "/" ++ x) "") as [E|_];
        [destruct c; discriminate|].
      rewrite Hroot.
      destruct t.
      * rewrite append_assoc. exact (within_below ("/" ++ c) (x ++ "/")).
      * exact (within_below ("/" ++ c) x).
Qed.

(** As many [..] segments as the root has directories, followed by a
    normalized absolute path other than [/], are joined onto the root to
    that path. *)
Lemma climb_then_descend (target : string) :
  Path.isAbsolute target = true ->
  Path.normalize target = target ->
  target <> "/" ->
  filePath (dotdots (List.length root_stack) ++ target) = target.
Proof.
  intros Habs Hnorm Hne.
  destruct target as [|c t']; [discriminate|].
  simpl in Habs. apply Ascii.eqb_eq in Habs. subst c.
  set (n := List.length root_stack).
  assert (Hu : dotdots n ++ String "/" t' <> "").
  { destruct (dotdots n); discriminate. }
  assert (Hr : requested (dotdots n ++ String "/" t') =
               dotdots n ++ String "/" t').
  { unfold requested.
    destruct (String.eqb_spec (dotdots n ++ String "/" t') "/") as [E|_];
      [|reflexivity].
    exfalso. pose proof (f_equal String.length E) as HL.
    rewrite length_append, length_dotdots in HL. simpl in HL.
    assert (n = 0) by lia. subst n. rewrite H in E. simpl in E.
    now apply Hne. }
  rewrite (filePath_render _ Hu), Hr.
  rewrite endsWithSlash_app by discriminate.
  change (String "/" t') with ("/" ++ t') at 1.
  rewrite split_app, split_dotdots.
  change (("" :: repeat ".." n) ++ Path.split t')%list
    with ("" :: (repeat ".." n ++ Path.split t'))%list.
  cbn [Path.normalizeArray String.eqb orb].
  unfold n. rewrite normalizeArray_climb
    by (apply normalizeArray_no_dotdot; constructor).
  transitivity (Path.normalize (String "/" t')); [|exact Hnorm].
  rewrite (normalize_render (String "/" t')) by reflexivity.
  reflexivity.
Qed.

Lemma dotdots_units (n : nat) : Main.all_units target_unit (dotdots n) = true.
Proof.
  induction n as [|n IH]; [reflexivity|].
  cbn [dotdots]. rewrite all_units_app, IH. reflexivity.
Qed.

(** A normalized absolute path other than [/] that is made of visible
    ASCII characters, which a request line carries as they are, is the
    resolved path of a request target made of such characters: as many
    [..] segments as the root has directories, followed by the path. A
    path with a space or another unit that has to be percent-encoded is
    not covered: the handler does not decode. *)
Theorem visible_path_reachable (target : string) :
  Path.isAbsolute target = true ->
  Path.normalize target = target ->
  target <> "/" ->
  Main.all_units target_unit target = true ->
  Main.all_units target_unit (dotdots (List.length root_stack) ++ target) = true
  /\ filePath (dotdots (List.length root_stack) ++ target) = target.
Proof.
  intros Habs Hnorm Hne Hunits. split.
  - now rewrite all_units_app, dotdots_units, Hunits.
  - now apply climb_then_descend.
Qed.

(** Empty and [.] segments in a request target, and a name followed by
    [..], do not change the file that is read. *)
Theorem redundant_segments (pre rest name : string) :
  pre ++ "/" ++ rest <> "/" ->
  plain name = true ->
  filePath (pre ++ "/" ++ "." ++ "/" ++ rest) = filePath (pre ++ "/" ++ rest)
  /\ filePath (pre ++ "/" ++ "" ++ "/" ++ rest) = filePath (pre ++ "/" ++ rest)
  /\ filePath (pre ++ "/" ++ name ++ "/" ++ ".." ++ "/" ++ rest) =
     filePath (pre ++ "/" ++ rest).
Proof.
  intros Hne Hname.
  assert (Hlong : forall mid,
            requested (pre ++ "/" ++ mid ++ "/" ++ rest) =
            pre ++ "/" ++ mid ++ "/" ++ rest).
  { intros mid. unfold requested.
    destruct (String.eqb_spec (pre ++ "/" ++ mid ++ "/" ++ rest) "/") as [E|_];
      [|reflexivity].
    exfalso. apply (f_equal String.length) in E.
    rewrite !length_append in E. simpl in E. lia. }
  assert (Hshort : requested (pre ++ "/" ++ rest) = pre ++ "/" ++ rest).
  { unfold requested. apply String.eqb_neq in Hne. now rewrite Hne. }
  assert (Hend : forall mid,
            Path.endsWithSlash (pre ++ "/" ++ mid ++ "/" ++ rest) =
            Path.endsWithSlash (pre ++ "/" ++ rest)).
  { intros mid.
    replace (pre ++ "/" ++ mid ++ "/" ++ rest)
      with ((pre ++ "/" ++ mid) ++ "/" ++ rest)
      by now rewrite !append_assoc.
    now rewrite !(endsWithSlash_app _ ("/" ++ rest)) by discriminate. }
  assert (Hsplit : forall mid,
            Path.split (pre ++ "/" ++ mid ++ "/" ++ rest) =
            (Path.split pre ++ Path.split mid ++ Path.split rest)%list).
  { intros mid. now rewrite !split_app. }
  assert (Hpath : forall mid,
            Path.normalizeArray false (Path.normalizeArray false root_stack
                                         (Path.split pre)) (Path.split mid) =
            Path.normalizeArray false root_stack (Path.split pre) ->
            filePath (pre ++ "/" ++ mid ++ "/" ++ rest) =
            filePath (pre ++ "/" ++ rest)).
  { intros mid Hmid.
    rewrite !filePath_render by (destruct pre; discriminate).
    rewrite Hlong, Hshort, Hend, Hsplit, split_app.
    now rewrite !normalizeArray_app, Hmid. }
  split; [|split].
  - apply (Hpath "."). reflexivity.
  - apply (Hpath ""). reflexivity.
  - replace (pre ++ "/" ++ name ++ "/" ++ ".." ++ "/" ++ rest)
      with (pre ++ "/" ++ (name ++ "/" ++ "..") ++ "/" ++ rest)
      by now rewrite !append_assoc.
    apply (Hpath (name ++ "/" ++ "..")).
    pose proof (plain_inv _ Hname) as (_ & _ & _ & Hdd & Hfree).
    rewrite split_app, (split_slash_free _ Hfree).
    change (Path.split "..") with [".."].
    change ([name] ++ [".."])%list with ([name] ++ ".." :: [])%list.
    rewrite normalizeArray_app, (normalizeArray_plains _ _ [name])
      by (constructor; [exact Hname|constructor]).
    apply String.eqb_neq in Hdd.
    now rewrite (normalizeArray_up _ [] _ Hdd).
Qed.

End Reach.

(** ** More on the content type and the reply *)

Lemma lower_unit_eqb (c x : ascii) :
  x = "."%char \/ x = "/"%char ->
  Ascii.eqb (JS.lower_unit c) x = Ascii.eqb c x.
Proof.
  intros Hx. destruct (Ascii.eqb_spec c x) as [->|Hc].
  - destruct Hx as [->| ->]; reflexivity.
  - apply Ascii.eqb_neq. intros H. apply Hc.
    destruct Hx as [->| ->];
      [now apply lower_unit_dot|now apply lower_unit_slash].
Qed.

Lemma lower_unit_idem (c : ascii) :
  JS.lower_unit (JS.lower_unit c) = JS.lower_unit c.
Proof.
  destruct c as [[] [] [] [] [] [] [] []]; reflexivity.
Qed.

Lemma toLowerCase_idem (s : string) :
  JS.toLowerCase (JS.toLowerCase s) = JS.toLowerCase s.
Proof.
  induction s as [|c s IH]; [reflexivity|].
  simpl. now rewrite lower_unit_idem, IH.
Qed.

Lemma split_lower (s : string) :
  Path.split (JS.toLowerCase s) = map JS.toLowerCase (Path.split s).
Proof.
  induction s as [|c s IH]; [reflexivity|].
  cbn [JS.toLowerCase Path.split]. rewrite lower_unit_eqb by now right.
  destruct (Ascii.eqb c "/"); [simpl; now rewrite IH|].
  rewrite IH. now destruct (Path.split s).
Qed.

Lemma lower_is_empty (s : string) : (JS.toLowerCase s =? "") = (s =? "").
Proof. now destruct s. Qed.

Lemma last_component_lower (l : list string) :
  Path.last_component (map JS.toLowerCase l) =
  option_map JS.toLowerCase (Path.last_component l).
Proof.
  induction l as [|a l IH]; [reflexivity|].
  cbn [map Path.last_component]. rewrite IH, lower_is_empty.
  destruct (Path.last_component l); [reflexivity|].
  now destruct (a =? "").
Qed.

Lemma from_last_dot_lower (s : string) :
  Path.from_last_dot (JS.toLowerCase s) =
  option_map JS.toLowerCase (Path.from_last_dot s).
Proof.
  induction s as [|c s IH]; [reflexivity|].
  cbn [JS.toLowerCase Path.from_last_dot]. rewrite IH, lower_unit_eqb by now left.
  destruct (Path.from_last_dot s); [reflexivity|].
  now destruct (Ascii.eqb c ".").
Qed.

Lemma lower_is_dotdot (s : string) : (JS.toLowerCase s =? "..") = (s =? "..").
Proof.
  destruct s as [|a [|b [|c s]]]; try reflexivity; simpl.
  - rewrite lower_unit_eqb by now left. reflexivity.
  - rewrite !lower_unit_eqb by now left. reflexivity.
  - rewrite !lower_unit_eqb by now left. reflexivity.
Qed.

Lemma component_ext_lower (base : string) :
  Path.component_ext (JS.toLowerCase base) =
  JS.toLowerCase (Path.component_ext base).
Proof.
  destruct base as [|c rest]; [reflexivity|].
  unfold Path.component_ext. cbn [JS.toLowerCase].
  rewrite from_last_dot_lower.
  change (String (JS.lower_unit c) (JS.toLowerCase rest))
    with (JS.toLowerCase (String c rest)).
  rewrite lower_is_dotdot.
  destruct (Path.from_last_dot rest); [|reflexivity].
  now destruct (String c rest =? "..").
Qed.

(** Taking the extension and lower-casing commute. *)
Lemma extname_lower (path : string) :
  Path.extname (JS.toLowerCase path) = JS.toLowerCase (Path.extname path).
Proof.
  unfold Path.extname. rewrite split_lower, last_component_lower.
  destruct (Path.last_component (Path.split path)); [|reflexivity].
  apply component_ext_lower.
Qed.

(** The content type does not depend on the case of any letter of the
    path: the lower-cased path gets the same type. *)
Theorem contentType_ignores_case (path : string) :
  ext (JS.toLowerCase path) = ext path
  /\ contentType (JS.toLowerCase path) = contentType path.
Proof.
  assert (H : ext (JS.toLowerCase path) = ext path).
  { unfold ext. now rewrite extname_lower, toLowerCase_idem. }
  split; [exact H|]. unfold contentType. now rewrite H.
Qed.

Lemma own_property_complete (o : JS.object) (key : string) :
  JS.own_property o key = None -> forall v, ~ In (key, v) o.
Proof.
  induction o as [|[k w] rest IH]; simpl; [now intros _ v|].
  destruct (String.eqb_spec k key) as [->|Hk]; [discriminate|].
  intros H v [[= E _]|Hin]; [now apply Hk|]. now apply (IH H v).
Qed.

(** The content type is always one of twelve strings: the type the table
    gives the lower-cased extension when that is a key, and the fallback
    exactly when it is not a key. *)
Theorem contentType_classified (path : string) :
  (exists mime, contentType path = JS.Str mime /\
                In mime ("application/octet-stream" :: map snd mimeTypes))
  /\ (forall mime, In (ext path, mime) mimeTypes ->
                   contentType path = JS.Str mime)
  /\ (contentType path = JS.Str "application/octet-stream" <->
      forall mime, ~ In (ext path, mime) mimeTypes).
Proof.
  split; [|split].
  - destruct (JS.own_property mimeTypes (ext path)) as [v|] eqn:H.
    + exists v. split; [now apply contentType_found|].
      right. apply own_property_In in H.
      now apply (in_map snd) in H.
    + eexists. split; [now apply contentType_fallback|now left].
  - intros mime H. apply contentType_found.
    now apply mimeTypes_key in H.
  - split.
    + intros Hct mime Hin.
      pose proof (mimeTypes_key _ _ Hin) as [Hown _].
      rewrite (contentType_found _ _ Hown) in Hct.
      injection Hct as ->. revert Hin. unfold mimeTypes. simpl.
      intros H; repeat (destruct H as [E|H]; [discriminate E|]);
        contradiction.
    + intros Hno. apply contentType_fallback.
      destruct (JS.own_property mimeTypes (ext path)) as [v|] eqn:H;
        [|reflexivity].
      exfalso. apply (Hno v). now apply own_property_In.
Qed.

(** The reply depends on the files only through the one path that is
    read: two file systems that agree there get the same reply. *)
Theorem reply_depends_on_read (d1 d2 : disk) (url : string) :
  d1 (filePath url) = d2 (filePath url) ->
  reply d1 url = reply d2 url
  /\ log (world_of (serve d1 url)) = log (world_of (serve d2 url)).
Proof.
  intros H. unfold reply.
  destruct (d1 (filePath url)) as [err|content] eqn:H1; symmetry in H.
  - destruct (String.eqb_spec (code err) "ENOENT") as [Hc|Hc].
    + rewrite (serve_absent _ _ _ H1 Hc), (serve_absent _ _ _ H Hc). now split.
    + rewrite (serve_failed _ _ _ H1 Hc), (serve_failed _ _ _ H Hc). now split.
  - rewrite (serve_ok _ _ _ H1), (serve_ok _ _ _ H). now split.
Qed.

Section Naming.

(** [__dirname] is an absolute path. *)
Hypothesis STATIC_DIR_absolute : Path.isAbsolute STATIC_DIR = true.

(** The content type of a request is that of the final name of its
    target: neither the directories of the target nor those of the root
    take part, dots in them included. *)
Theorem contentType_of_final_name (pre name : string) :
  plain name = true ->
  ext (filePath (pre ++ "/" ++ name)) = ext name
  /\ contentType (filePath (pre ++ "/" ++ name)) = contentType name.
Proof.
  intros Hp.
  assert (H : ext (filePath (pre ++ "/" ++ name)) = ext name).
  { unfold ext. rewrite (filePath_extname STATIC_DIR_absolute _ _ Hp).
    apply plain_inv in Hp as (_ & _ & _ & _ & Hfree).
    now rewrite (extname_single _ Hfree). }
  split; [exact H|]. unfold contentType. now rewrite H.
Qed.

Lemma occurs_lower_question (s : string) :
  occurs "?" (JS.toLowerCase s) = occurs "?" s.
Proof.
  induction s as [|c s IH]; [reflexivity|]. simpl. rewrite IH. f_equal.
  destruct c as [[] [] [] [] [] [] [] []]; reflexivity.
Qed.

Lemma mimeTypes_no_question (E mime : string) :
  In (E, mime) mimeTypes -> occurs "?" E = false.
Proof.
  unfold mimeTypes; simpl.
  intros H; repeat (destruct H as [[= <- <-]|H]; [reflexivity|]); contradiction.
Qed.

(** A query string that follows the extension becomes part of it: when a
    [?] comes after the last dot of the final name, the type is the
    fallback, whatever the extension before the [?] was. *)
Theorem query_after_extension (pre stem t : string) :
  stem <> "" -> occurs "/" stem = false ->
  occurs "." t = false -> occurs "/" t = false -> occurs "?" t = true ->
  ext (filePath (pre ++ "/" ++ stem ++ String "." t)) =
    JS.toLowerCase (String "." t)
  /\ contentType (filePath (pre ++ "/" ++ stem ++ String "." t)) =
     JS.Str "application/octet-stream".
Proof.
  intros Hstem Hfree Hdot Hslash Hq.
  assert (Ht : t <> "") by (intros ->; discriminate).
  assert (H : ext (filePath (pre ++ "/" ++ stem ++ String "." t)) =
              JS.toLowerCase (String "." t)).
  { unfold ext.
    rewrite (filePath_extname STATIC_DIR_absolute)
      by now apply plain_with_ext.
    rewrite component_ext_app; auto.
    intros E. apply (f_equal String.length) in E.
    rewrite length_append in E. destruct stem, t; simpl in E; try lia;
      contradiction. }
  split; [exact H|].
  apply contentType_fallback. rewrite H.
  destruct (JS.own_property mimeTypes (JS.toLowerCase (String "." t)))
    as [v|] eqn:Hown; [|reflexivity].
  apply own_property_In, mimeTypes_no_question in Hown.
  rewrite occurs_lower_question in Hown. simpl in Hown. congruence.
Qed.

End Naming.

End Server.

(** ** The handler on a small site rooted at [/srv/site] *)

Example join_examples :
  map (Path.join "/srv/site")
      ["/index.html"; "/a/./b//c/"; "/x/../y"; "/."; "/../../etc/passwd"] =
  ["/srv/site/index.html"; "/srv/site/a/b/c/"; "/srv/site/y"; "/srv/site";
   "/etc/passwd"].
Proof. reflexivity. Qed.

Example extname_examples :
  map Path.extname
      ["index.html"; "index.coffee.md"; "index."; "index"; ".index";
       ".index.md"; ".."; "/a.b/c"; "/a/b.html/"] =
  [".html"; ".md"; "."; ""; ""; ".md"; ""; ""; ".html"].
Proof. reflexivity. Qed.

(** The mutating calls do change the files, and a second head is a
    fault: the handler avoids both. *)
Example write_is_seen :
  files (world_of (run (FsWriteFile "/srv/site/index.html" [] ;;; Ret tt)
                       {| files := site; log := [] |}))
        "/srv/site/index.html" = ReadOk [].
Proof. reflexivity. Qed.

Example second_head_throws :
  completed (run (ResWriteHead 200 [] ;;; ResWriteHead 404 [] ;;; Ret tt)
                 {| files := site; log := [] |}) = false.
Proof. reflexivity. Qed.

(** The scenarios of the specification. *)
Example scenarios :
  reply "/srv/site" site "/index.html" =
    [ EvWriteHead 200 [("Content-Type", JS.Str "text/html")];
      EvEnd (Buffer (list_byte_of_string "<h1>Hi</h1>")) ]
  /\ status_of (reply "/srv/site" site "/app.js") = Some 200%Z
  /\ status_of (reply "/srv/site" site "/missing.html") = Some 404%Z
  /\ status_of (reply "/srv/site" site "/secret.txt") = Some 500%Z
  /\ contentType (filePath "/srv/site" "/data.unknownext") =
       JS.Str "application/octet-stream".
Proof. repeat split. Qed.

(** C5, as it is worded, fails: the file [/.html] has [.html] as the
    suffix from its last dot, and the code finds no extension in it. *)
Lemma described_ext_differs :
  ~ (forall root url,
       let path := filePath root url in
       ext path = described_ext path
       /\ (JS.own_property mimeTypes (described_ext path) = None ->
            contentType path = JS.Str "application/octet-stream")).
Proof.
  intros H. destruct (H "/srv/site" "/.html") as [H1 _].
  vm_compute in H1. discriminate.
Qed.

(** C2, as it is worded, fails: under [/srv/site] the request
    [/index.html/x] names nothing, and since [index.html] is a regular
    file the read fails with [ENOTDIR] and the reply is 500. *)
Lemma absent_resource_answered_500 :
  ~ (forall root v url,
       Posix.well_formed v = true ->
       Posix.resource v (filePath root url) = None ->
       status_of (reply root (Posix.readFile v) url) = Some 404%Z).
Proof.
  intros H.
  specialize (H "/srv/site" Posix.home "/index.html/x" eq_refl eq_refl).
  vm_compute in H. discriminate.
Qed.

(** C4, as it is worded, fails: the file [/.html] has [.html] as the
    suffix from its last dot, a key of the table, and is served as
    [application/octet-stream]. *)
Lemma extension_only_name_untyped :
  ~ (forall root d E mime url content,
       In (E, mime) mimeTypes ->
       described_ext (filePath root url) = E ->
       d (filePath root url) = ReadOk content ->
       reply root d url =
         [EvWriteHead 200 [("Content-Type", JS.Str mime)];
          EvEnd (Buffer content)]).
Proof.
  intros H.
  specialize (H "/srv/site" (update site "/srv/site/.html" (ReadOk []))
                ".html" "text/html" "/.html" []).
  assert (Hin : In (".html", "text/html") mimeTypes) by (simpl; now left).
  specialize (H Hin eq_refl eq_refl).
  vm_compute in H. discriminate.
Qed.

(** ** The theorems at work on the small site *)

Lemma success_response_witness :
  site (filePath "/srv/site" "/index.html") =
    ReadOk (list_byte_of_string "<h1>Hi</h1>")
  /\ reply "/srv/site" site "/index.html" =
       [ EvWriteHead 200 [("Content-Type", JS.Str "text/html")];
         EvEnd (Buffer (list_byte_of_string "<h1>Hi</h1>")) ].
Proof.
  split; [reflexivity|].
  apply (success_response "/srv/site" site "/index.html"
           (list_byte_of_string "<h1>Hi</h1>")).
  reflexivity.
Defined.

Lemma not_found_on_enoent_witness :
  absent (Posix.readFile Posix.home) (filePath "/srv/site" "/missing.html") = true
  /\ reply "/srv/site" (Posix.readFile Posix.home) "/missing.html" =
       [EvWriteHead 404 []; EvEnd (Text "File not found")]
  /\ Posix.resource Posix.home (filePath "/srv/site" "/missing.html") = None
  /\ status_of (reply "/srv/site" (Posix.readFile Posix.home) "/index.html/x") =
       Some 500%Z.
Proof.
  destruct (not_found_on_enoent "/srv/site" (Posix.readFile Posix.home)
              Posix.home "/missing.html") as (H1 & H2 & H3 & _).
  destruct (not_found_on_enoent "/srv/site" (Posix.readFile Posix.home)
              Posix.home "/index.html/x") as (_ & _ & _ & H4).
  split; [reflexivity|]. split; [|split].
  - apply H1. reflexivity.
  - apply H3; [reflexivity|]. apply H2. reflexivity.
  - destruct (H4 eq_refl) as [E|E]; [discriminate E|exact E].
Defined.

Lemma server_error_response_witness :
  site (filePath "/srv/site" "/secret.txt") = ReadErr {| code := "EACCES" |}
  /\ reply "/srv/site" site "/secret.txt" =
       [EvWriteHead 500 []; EvEnd (Text "Server error")].
Proof.
  split; [reflexivity|].
  apply (server_error_response "/srv/site" site "/secret.txt"
           {| code := "EACCES" |}).
  - reflexivity.
  - discriminate.
Defined.

Lemma table_lookup_witness :
  JS.toLowerCase ".PNG" = ".png"
  /\ reply "/srv/site" site "/LOGO.PNG" =
       [ EvWriteHead 200 [("Content-Type", JS.Str "image/png")];
         EvEnd (Buffer (list_byte_of_string "PNG")) ].
Proof.
  split; [reflexivity|].
  apply (table_lookup "/srv/site" eq_refl site ".png" "image/png"
           "" "LOGO" ".PNG" (list_byte_of_string "PNG")).
  - simpl. do 4 right. left. reflexivity.
  - reflexivity.
  - discriminate.
  - reflexivity.
  - reflexivity.
Defined.

Lemma extension_fallback_witness :
  ext "/srv/site/data.unknownext" = ".unknownext"
  /\ contentType "/srv/site/data.unknownext" = JS.Str "application/octet-stream"
  /\ contentType "/srv/site/LICENSE" = JS.Str "application/octet-stream".
Proof.
  destruct (extension_fallback "/srv/site/data.unknownext")
    as (H1 & _ & _ & _ & _ & H6 & _).
  destruct (extension_fallback "/srv/site/LICENSE")
    as (_ & _ & _ & _ & _ & _ & H7).
  split; [|split].
  - apply (H1 "/srv/site" "data.unknownext"); [discriminate|reflexivity..].
  - apply H6. reflexivity.
  - apply H7. reflexivity.
Defined.

Lemma traversal_escapes_witness :
  Path.normalize "/srv/site" = "/srv/site"
  /\ exists url, In ".." (Path.split url) /\
                 ~ within "/srv/site" (filePath "/srv/site" url).
Proof.
  split; [reflexivity|].
  apply (traversal_escapes "/srv/site" eq_refl); [reflexivity|discriminate].
Defined.

Lemma query_string_in_name_witness :
  absent site (filePath "/srv/site" "/index.html?v=1") = true
  /\ reply "/srv/site" site "/index.html?v=1" =
       [EvWriteHead 404 []; EvEnd (Text "File not found")]
  /\ reply "/srv/site" site "/index.html" =
       [ EvWriteHead 200 [("Content-Type", JS.Str "text/html")];
         EvEnd (Buffer (list_byte_of_string "<h1>Hi</h1>")) ].
Proof.
  split; [reflexivity|].
  apply (query_string_in_name "/srv/site" eq_refl site
           (list_byte_of_string "<h1>Hi</h1>")); reflexivity.
Defined.

(** ** Regular expressions: derivatives decide the language *)

Lemma append_is_empty (a b : string) : a ++ b = "" -> a = "" /\ b = "".
Proof. destruct a; [now split|discriminate]. Qed.

Lemma nullable_lang (r : Regex.re) :
  Regex.nullable r = true <-> Regex.lang r "".
Proof.
  split.
  - induction r; simpl; try discriminate; intros H.
    + constructor.
    + apply andb_true_iff in H as [H1 H2].
      change "" with ("" ++ ""). constructor; auto.
    + apply orb_true_iff in H as [H|H];
        [apply Regex.lang_alt_l|apply Regex.lang_alt_r]; auto.
    + constructor.
  - intros H. remember "" as w eqn:Hw.
    induction H; simpl; try reflexivity; try discriminate.
    + apply append_is_empty in Hw as [-> ->]. now rewrite IHlang1, IHlang2.
    + now rewrite IHlang.
    + rewrite IHlang by assumption. apply orb_true_r.
Qed.

Lemma deriv_sound (c : ascii) (r : Regex.re) (s : string) :
  Regex.lang (Regex.deriv c r) s -> Regex.lang r (String c s).
Proof.
  revert s. induction r; intros w H; cbn [Regex.deriv] in H.
  - inversion H.
  - inversion H.
  - destruct (p c) eqn:Hp; inversion H; subst. now constructor.
  - destruct (Regex.nullable r1) eqn:Hn.
    + inversion H as [| |? ? ? ? ? ?|? ? ? Hl|? ? ? Hr| |]; subst.
      * inversion Hl as [| |? ? a b Ha Hb| | | |]; subst.
        change (String c (a ++ b)) with (String c a ++ b).
        constructor; auto.
      * change (String c w) with ("" ++ String c w).
        constructor; [now apply nullable_lang|auto].
    + inversion H as [| |? ? a b Ha Hb| | | |]; subst.
      change (String c (a ++ b)) with (String c a ++ b).
      constructor; auto.
  - inversion H; subst;
      [apply Regex.lang_alt_l|apply Regex.lang_alt_r]; auto.
  - inversion H as [| |? ? a b Ha Hb| | | |]; subst.
    change (String c (a ++ b)) with (String c a ++ b).
    constructor; auto.
Qed.

Lemma deriv_complete (c : ascii) (r : Regex.re) (s : string) :
  Regex.lang r (String c s) -> Regex.lang (Regex.deriv c r) s.
Proof.
  intros H. remember (String c s) as w eqn:Hw. revert s Hw.
  induction H as [|p x Hp|r1 r2 a b Ha IHa Hb IHb|r1 r2 a Ha IHa
                 |r1 r2 a Ha IHa|r1|r1 a b Ha IHa Hb IHb];
    intros w Hw; cbn [Regex.deriv].
  - discriminate.
  - injection Hw as -> <-. rewrite Hp. constructor.
  - destruct a as [|x a'].
    + simpl in Hw. subst b.
      apply nullable_lang in Ha. rewrite Ha.
      apply Regex.lang_alt_r. now apply IHb.
    + simpl in Hw. injection Hw as -> <-.
      destruct (Regex.nullable r1);
        [apply Regex.lang_alt_l|]; constructor; auto.
  - apply Regex.lang_alt_l. auto.
  - apply Regex.lang_alt_r. auto.
  - discriminate.
  - destruct a as [|x a'].
    + simpl in Hw. now apply IHb.
    + simpl in Hw. injection Hw as -> <-. constructor; auto.
Qed.

(** The test by derivatives accepts exactly the language of the
    pattern. *)
Lemma test_lang (r : Regex.re) (s : string) :
  Regex.test r s = true <-> Regex.lang r s.
Proof.
  revert r. induction s as [|c s IH]; intros r; cbn [Regex.test].
  - apply nullable_lang.
  - rewrite IH. split; [apply deriv_sound|apply deriv_complete].
Qed.

(** ** The e-mail pattern of [validateField] *)

Lemma star_class (p : ascii -> bool) (s : string) :
  Regex.lang (Regex.Star (Regex.Class p)) s <-> Main.all_units p s = true.
Proof.
  split.
  - intros H. remember (Regex.Star (Regex.Class p)) as r eqn:Hr.
    induction H as [| | | | | |r1 a b Ha _ Hb IHb]; try discriminate;
      [reflexivity|].
    injection Hr as ->. inversion Ha; subst. simpl.
    rewrite IHb by reflexivity. now rewrite H0.
  - induction s as [|c s IH]; simpl; intros H; [constructor|].
    apply andb_true_iff in H as [Hc Hs].
    change (String c s) with (String c "" ++ s).
    constructor; [now constructor|auto].
Qed.

Lemma plus_class (p : ascii -> bool) (s : string) :
  Regex.lang (Regex.Plus (Regex.Class p)) s <->
  s <> "" /\ Main.all_units p s = true.
Proof.
  unfold Regex.Plus. split.
  - intros H. inversion H as [| |? ? a b Ha Hb| | | |]; subst.
    inversion Ha; subst. apply star_class in Hb.
    split; [discriminate|]. simpl. now rewrite H1, Hb.
  - intros [Hne H]. destruct s as [|c s]; [contradiction|].
    simpl in H. apply andb_true_iff in H as [Hc Hs].
    change (String c s) with (String c "" ++ s).
    constructor; [now constructor|now apply star_class].
Qed.

Lemma lang_literal (x : ascii) (s : string) :
  Regex.lang (Regex.Class (Ascii.eqb x)) s <-> s = String x "".
Proof.
  split.
  - intros H. inversion H; subst. now apply Ascii.eqb_eq in H1 as <-.
  - intros ->. constructor. apply Ascii.eqb_refl.
Qed.

(** The pattern accepts exactly the values [local@domain.tail] whose
    three parts are non-empty and free of white space and of [@]. *)
Theorem emailRegex_shape (v : string) :
  Regex.test Main.emailRegex v = true <-> Main.email_shape v.
Proof.
  rewrite test_lang. unfold Main.emailRegex, Main.email_shape, Main.is_word.
  split.
  - intros H.
    inversion H as [| |? ? l r1 Hl H1| | | |]; subst.
    inversion H1 as [| |? ? at_ r2 Hat H2| | | |]; subst.
    inversion H2 as [| |? ? d r3 Hd H3| | | |]; subst.
    inversion H3 as [| |? ? dot t Hdot Ht| | | |]; subst.
    apply lang_literal in Hat, Hdot. subst.
    apply plus_class in Hl, Hd, Ht.
    exists l, d, t. auto.
  - intros (l & d & t & -> & Hl & Hd & Ht).
    apply plus_class in Hl, Hd, Ht.
    repeat (constructor; auto); try apply Ascii.eqb_refl.
Qed.

Lemma count_unit_app (c : ascii) (a b : string) :
  Main.count_unit c (a ++ b) = Main.count_unit c a + Main.count_unit c b.
Proof.
  induction a as [|x a IH]; [reflexivity|]. simpl. rewrite IH. lia.
Qed.

Lemma word_no_at (s : string) :
  Main.all_units Main.not_space_or_at s = true ->
  Main.count_unit "@" s = 0 /\
  Main.all_units (fun c => negb (Main.is_space c)) s = true.
Proof.
  induction s as [|c s IH]; [now split|].
  simpl. intros H. apply andb_true_iff in H as [Hc Hs].
  destruct (IH Hs) as [-> ->].
  unfold Main.not_space_or_at in Hc.
  apply negb_true_iff, orb_false_iff in Hc as [-> ->]. now split.
Qed.

(** A value the pattern accepts has no white space, exactly one [@], and
    at least five code units. *)
Theorem emailRegex_necessary (v : string) :
  Regex.test Main.emailRegex v = true ->
  Main.all_units (fun c => negb (Main.is_space c)) v = true
  /\ Main.count_unit "@" v = 1
  /\ 5 <= String.length v.
Proof.
  intros H. apply emailRegex_shape in H
    as (l & d & t & -> & [Hl1 Hl] & [Hd1 Hd] & [Ht1 Ht]).
  destruct (word_no_at _ Hl) as [Cl Sl].
  destruct (word_no_at _ Hd) as [Cd Sd].
  destruct (word_no_at _ Ht) as [Ct St].
  rewrite !all_units_app, !count_unit_app, !length_append.
  rewrite Sl, Sd, St, Cl, Cd, Ct.
  repeat split.
  destruct l, d, t; simpl; try contradiction; lia.
Qed.

(** ** [validateField] *)

Lemma check_valid (f : Main.field) :
  fst (Main.check f) = true <->
  (Main.required f = true -> Main.trim (Main.value f) <> "")
  /\ (Main.type f = "email" -> Main.trim (Main.value f) <> "" ->
      Main.email_shape (Main.trim (Main.value f))).
Proof.
  unfold Main.check. rewrite <- emailRegex_shape.
  destruct (Main.required f);
    destruct (String.eqb_spec (Main.trim (Main.value f)) "") as [Hv|Hv];
    destruct (String.eqb_spec (Main.type f) "email") as [Ht|Ht];
    cbn [andb negb fst];
    try destruct (Regex.test Main.emailRegex (Main.trim (Main.value f)));
    cbn [negb fst]; intuition congruence.
Qed.

(** [validateField] returns true exactly when a required control has a
    value that is not blank and an e-mail control with a value that is
    not blank holds an address of the accepted shape. *)
Theorem validateField_result (f : Main.field) (m : Main.marks) :
  snd (Main.validateField f m) = true <->
  (Main.required f = true -> Main.trim (Main.value f) <> "")
  /\ (Main.type f = "email" -> Main.trim (Main.value f) <> "" ->
      Main.email_shape (Main.trim (Main.value f))).
Proof.
  rewrite <- check_valid. unfold Main.validateField.
  destruct (Main.check f) as [ok msg]. reflexivity.
Qed.

Lemma trimStart_blank (pad : string) :
  Main.all_units Main.is_space pad = true -> Main.trimStart pad = "".
Proof.
  induction pad as [|c pad IH]; [reflexivity|]. simpl.
  intros H. apply andb_true_iff in H as [-> H]. auto.
Qed.

Lemma trimEnd_blank (pad : string) :
  Main.all_units Main.is_space pad = true -> Main.trimEnd pad = "".
Proof.
  induction pad as [|c pad IH]; [reflexivity|]. simpl.
  intros H. apply andb_true_iff in H as [-> H]. now rewrite IH.
Qed.

Lemma trimEnd_padded (s pad : string) :
  Main.all_units Main.is_space pad = true ->
  Main.trimEnd (s ++ pad) = Main.trimEnd s.
Proof.
  intros H. induction s as [|c s IH]; [now apply trimEnd_blank|].
  simpl. now rewrite IH.
Qed.

Lemma trim_padded_end (s pad : string) :
  Main.all_units Main.is_space pad = true ->
  Main.trim (s ++ pad) = Main.trim s.
Proof.
  intros H. unfold Main.trim. induction s as [|c s IH].
  - simpl. now rewrite (trimStart_blank _ H).
  - cbn [append Main.trimStart]. destruct (Main.is_space c); [exact IH|].
    exact (trimEnd_padded (String c s) pad H).
Qed.

Lemma trim_padded_start (pad s : string) :
  Main.all_units Main.is_space pad = true ->
  Main.trim (pad ++ s) = Main.trim s.
Proof.
  intros H. unfold Main.trim. f_equal.
  induction pad as [|c pad IH]; [reflexivity|].
  simpl in H |- *. apply andb_true_iff in H as [-> H]. auto.
Qed.

(** White space around the value takes no part in the validation: the
    padded value is judged, and marked, as the value itself. *)
Theorem validateField_ignores_padding
    (before v after typ : string) (req : bool) (m : Main.marks) :
  Main.all_units Main.is_space before = true ->
  Main.all_units Main.is_space after = true ->
  Main.validateField
    {| Main.value := before ++ v ++ after; Main.required := req;
       Main.type := typ |} m =
  Main.validateField
    {| Main.value := v; Main.required := req; Main.type := typ |} m.
Proof.
  intros Hb Ha. unfold Main.validateField, Main.check. cbn [Main.value].
  now rewrite (trim_padded_start _ _ Hb), (trim_padded_end _ _ Ha).
Qed.

Lemma check_message (f : Main.field) :
  fst (Main.check f) = false ->
  snd (Main.check f) =
    (if Main.trim (Main.value f) =? "" then "This field is required"
     else "Please enter a valid email address").
Proof.
  unfold Main.check.
  destruct (Main.required f);
    destruct (Main.trim (Main.value f) =? "");
    destruct (Main.type f =? "email");
    cbn [andb negb fst snd];
    try destruct (Regex.test Main.emailRegex (Main.trim (Main.value f)));
    cbn [negb fst snd]; congruence.
Qed.

(** After [validateField] the marks tell its result: [aria-invalid] is
    the negation of the result, the control is flagged exactly when it is
    invalid, and, when at most one error text was shown before, the only
    error text shown is the message of this validation, or none. The
    message is about the missing value when the value is blank and about
    the address otherwise. Validating again changes nothing. *)
Theorem validateField_marks (f : Main.field) (m : Main.marks) :
  List.length (Main.errors m) <= 1 ->
  let m' := fst (Main.validateField f m) in
  let ok := snd (Main.validateField f m) in
  Main.ariaInvalid m' = Some (if ok then "false" else "true")
  /\ Main.flagged m' = negb ok
  /\ Main.errors m' =
       (if ok then []
        else [if Main.trim (Main.value f) =? "" then "This field is required"
              else "Please enter a valid email address"])
  /\ Main.validateField f m' = Main.validateField f m.
Proof.
  intros Hlen. pose proof (check_message f) as Hmsg.
  unfold Main.validateField in *.
  destruct (Main.check f) as [ok msg]. cbn [fst snd] in *.
  assert (Htl : tl (Main.errors m) = []).
  { destruct (Main.errors m) as [|e [|e' es]]; simpl in *; auto; lia. }
  destruct ok; cbn [negb Main.flagged Main.errors Main.ariaInvalid fst snd tl];
    rewrite ?Htl; cbn [app tl].
  - repeat split.
  - rewrite (Hmsg eq_refl). repeat split.
Qed.

(** ** The submit handler *)

Lemma validate_required_map (controls : list (Main.field * Main.marks)) :
  fst (Main.validate_required controls) =
  map (fun c => if Main.required (fst c)
                then (fst c, fst (Main.validateField (fst c) (snd c)))
                else c) controls.
Proof.
  induction controls as [|[f m] rest IH]; [reflexivity|].
  cbn [Main.validate_required map fst snd].
  destruct (Main.required f).
  - destruct (Main.validateField f m) as [m' ok].
    destruct (Main.validate_required rest) as [rest' v].
    cbn [fst] in *. now rewrite IH.
  - destruct (Main.validate_required rest) as [rest' v].
    cbn [fst] in *. now rewrite IH.
Qed.

Lemma validate_required_all (controls : list (Main.field * Main.marks)) :
  snd (Main.validate_required controls) = true <->
  forall f m, In (f, m) controls -> Main.required f = true ->
              fst (Main.check f) = true.
Proof.
  induction controls as [|[f m] rest IH].
  - split; [intros _ f m []|reflexivity].
  - cbn [Main.validate_required].
    destruct (Main.required f) eqn:Hreq.
    + unfold Main.validateField at 1.
      destruct (Main.check f) as [ok msg] eqn:Hc.
      destruct (Main.validate_required rest) as [rest' v].
      cbn [snd fst] in *. rewrite andb_true_iff, IH. split.
      * intros [-> Hrest] f' m' [[= <- <-]|Hin] Hr;
          [now rewrite Hc|eauto].
      * intros H. split.
        -- specialize (H f m (or_introl eq_refl) Hreq).
           now rewrite Hc in H.
        -- intros f' m' Hin Hr. apply (H f' m'); [now right|exact Hr].
    + destruct (Main.validate_required rest) as [rest' v].
      cbn [snd] in *. rewrite IH. split.
      * intros Hrest f' m' [[= <- <-]|Hin] Hr; [congruence|eauto].
      * intros H f' m' Hin Hr. apply (H f' m'); [now right|exact Hr].
Qed.

(** The submit handler validates every control that has [required],
    also after one has failed, and leaves the other controls as they are;
    it hands the form on exactly when every required control has a value
    that is not blank and, if it is an e-mail control, an address of the
    accepted shape. A control without [required] never holds the form
    back. *)
Theorem on_submit_decides (controls : list (Main.field * Main.marks)) :
  fst (Main.on_submit controls) =
    map (fun c => if Main.required (fst c)
                  then (fst c, fst (Main.validateField (fst c) (snd c)))
                  else c) controls
  /\ (snd (Main.on_submit controls) = Main.Submitted <->
      forall f m, In (f, m) controls -> Main.required f = true ->
        Main.trim (Main.value f) <> "" /\
        (Main.type f = "email" ->
         Main.email_shape (Main.trim (Main.value f)))).
Proof.
  pose proof (validate_required_map controls) as Hmap.
  pose proof (validate_required_all controls) as Hall.
  unfold Main.on_submit.
  destruct (Main.validate_required controls) as [controls' v].
  cbn [fst snd] in *.
  assert (Hdec : (snd (if v then (controls', Main.Submitted)
                       else (controls', Main.Focused
                                          (Main.first_flagged controls' 0)))
                  = Main.Submitted) <-> v = true).
  { destruct v; simpl; split; congruence. }
  split; [now destruct v|].
  rewrite Hdec, Hall. split.
  - intros H f m Hin Hreq. apply (H f m Hin) in Hreq as Hok.
    apply check_valid in Hok as [H1 H2]. split; auto.
  - intros H f m Hin Hreq. apply check_valid.
    destruct (H f m Hin Hreq) as [H1 H2]. split; auto.
Qed.

(** ** The mobile menu *)

Lemma menu_step_in_step (m : Main.menu) (e : Main.menu_event) :
  Main.in_step m -> Main.in_step (Main.menu_step m e).
Proof.
  unfold Main.in_step. intros (H1 & H2 & H3).
  destruct e as [| |key]; cbn [Main.menu_step].
  - unfold Main.on_hamburger_click.
    cbn [Main.hamburgerActive Main.navActive Main.ariaExpanded
         Main.bodyOverflow].
    rewrite H1. split; [reflexivity|].
    destruct (Main.navActive m) eqn:Hn.
    + assert (E : Main.ariaExpanded m = Some "true") by now apply H2.
      rewrite E. simpl. repeat split; congruence.
    + assert (E : match Main.ariaExpanded m with
                  | Some v => v =? "true"
                  | None => false
                  end = false).
      { destruct (Main.ariaExpanded m) as [v|]; [|reflexivity].
        destruct (String.eqb_spec v "true") as [->|_]; [|reflexivity].
        assert (false = true) by now apply H2. discriminate. }
      rewrite E. simpl. repeat split; congruence.
  - simpl. repeat split; congruence.
  - unfold Main.on_keydown.
    destruct ((key =? "Escape") && Main.navActive m).
    + simpl. repeat split; congruence.
    + auto.
Qed.

(** Whatever is clicked or typed, the menu stays in step: the button and
    the link list are active together, [aria-expanded] is [true] exactly
    when they are, and the body is kept from scrolling exactly then. *)
Theorem menu_stays_in_step (m : Main.menu) (events : list Main.menu_event) :
  Main.in_step m -> Main.in_step (fold_left Main.menu_step events m).
Proof.
  revert m. induction events as [|e events IH]; intros m H; [exact H|].
  simpl. apply IH. now apply menu_step_in_step.
Qed.

(** ** The navbar *)



(** ** The further theorems at work *)

Lemma resolved_normalized_witness :
  Path.isAbsolute "/srv/site" = true
  /\ filePath "/srv/site" "/a/./b//c/../d/" = "/srv/site/a/b/d/"
  /\ Path.normalize (filePath "/srv/site" "/a/./b//c/../d/") =
     filePath "/srv/site" "/a/./b//c/../d/".
Proof.
  split; [reflexivity|]. split; [reflexivity|].
  apply (resolved_normalized "/srv/site" eq_refl "/a/./b//c/../d/").
Defined.

Lemma contained_without_dotdot_witness :
  ~ In ".." (Path.split "/%2e%2e/..%2f/etc/passwd")
  /\ within "/srv/site" (filePath "/srv/site" "/%2e%2e/..%2f/etc/passwd").
Proof.
  assert (H : ~ In ".." (Path.split "/%2e%2e/..%2f/etc/passwd")).
  { simpl. intros [E|[E|[E|[E|[E|[]]]]]]; discriminate E. }
  split; [exact H|].
  apply (contained_without_dotdot "/srv/site" eq_refl
           "/%2e%2e/..%2f/etc/passwd"); [reflexivity|reflexivity|exact H].
Defined.

Lemma visible_path_reachable_witness :
  Path.normalize "/etc/passwd" = "/etc/passwd"
  /\ Main.all_units target_unit "/../../etc/passwd" = true
  /\ filePath "/srv/site" "/../../etc/passwd" = "/etc/passwd".
Proof.
  split; [reflexivity|].
  apply (visible_path_reachable "/srv/site" eq_refl "/etc/passwd");
    [reflexivity|reflexivity|discriminate|reflexivity].
Defined.

Lemma redundant_segments_witness :
  filePath "/srv/site" "/css/./site.css" = filePath "/srv/site" "/css/site.css"
  /\ filePath "/srv/site" "/css//site.css" = filePath "/srv/site" "/css/site.css"
  /\ filePath "/srv/site" "/css/old/../site.css" =
     filePath "/srv/site" "/css/site.css".
Proof.
  apply (redundant_segments "/srv/site" eq_refl "/css" "site.css" "old");
    [discriminate|reflexivity].
Defined.

Lemma contentType_classified_witness :
  In (ext "/srv/site/app.js", "application/javascript") mimeTypes
  /\ contentType "/srv/site/app.js" = JS.Str "application/javascript".
Proof.
  assert (H : In (ext "/srv/site/app.js", "application/javascript") mimeTypes).
  { simpl. right. right. left. reflexivity. }
  split; [exact H|].
  destruct (contentType_classified "/srv/site/app.js") as (_ & H2 & _).
  apply H2. exact H.
Defined.

Lemma reply_depends_on_read_witness :
  site (filePath "/srv/site" "/index.html") =
    update site "/srv/site/app.js" (ReadErr ENOENT)
      (filePath "/srv/site" "/index.html")
  /\ reply "/srv/site" site "/index.html" =
     reply "/srv/site" (update site "/srv/site/app.js" (ReadErr ENOENT))
       "/index.html".
Proof.
  split; [reflexivity|].
  apply (reply_depends_on_read "/srv/site" site
           (update site "/srv/site/app.js" (ReadErr ENOENT)) "/index.html").
  reflexivity.
Defined.

Lemma contentType_of_final_name_witness :
  plain "logo.svg" = true
  /\ contentType (filePath "/srv/site.v2" "/img.old/icons/logo.svg") =
     contentType "logo.svg".
Proof.
  split; [reflexivity|].
  apply (contentType_of_final_name "/srv/site.v2" eq_refl
           "/img.old/icons" "logo.svg").
  reflexivity.
Defined.

Lemma query_after_extension_witness :
  occurs "?" "css?v=3" = true
  /\ contentType (filePath "/srv/site" "/css/site.css?v=3") =
     JS.Str "application/octet-stream".
Proof.
  split; [reflexivity|].
  apply (query_after_extension "/srv/site" eq_refl "/css" "site" "css?v=3");
    [discriminate|reflexivity..].
Defined.

Lemma emailRegex_shape_witness :
  Regex.test Main.emailRegex "ann@example.org" = true
  /\ Main.email_shape "ann@example.org".
Proof.
  split; [reflexivity|].
  apply (proj1 (emailRegex_shape "ann@example.org")). reflexivity.
Defined.

Lemma emailRegex_necessary_witness :
  Regex.test Main.emailRegex "ann@example.org" = true
  /\ Main.count_unit "@" "ann@example.org" = 1.
Proof.
  split; [reflexivity|].
  apply (emailRegex_necessary "ann@example.org"). reflexivity.
Defined.

Lemma validateField_result_witness :
  snd (Main.validateField
         {| Main.value := " ann@example.org "; Main.required := true;
            Main.type := "email" |}
         {| Main.flagged := false; Main.errors := [];
            Main.ariaInvalid := None |}) = true
  /\ Main.trim " ann@example.org " <> "".
Proof.
  split; [reflexivity|].
  apply (proj1 (validateField_result
                  {| Main.value := " ann@example.org "; Main.required := true;
                     Main.type := "email" |}
                  {| Main.flagged := false; Main.errors := [];
                     Main.ariaInvalid := None |}));
    reflexivity.
Defined.

Lemma validateField_ignores_padding_witness :
  Main.all_units Main.is_space "  " = true
  /\ Main.validateField
       {| Main.value := "  " ++ "ann@example.org" ++ " "; Main.required := true;
          Main.type := "email" |}
       {| Main.flagged := true; Main.errors := ["This field is required"];
          Main.ariaInvalid := Some "true" |} =
     Main.validateField
       {| Main.value := "ann@example.org"; Main.required := true;
          Main.type := "email" |}
       {| Main.flagged := true; Main.errors := ["This field is required"];
          Main.ariaInvalid := Some "true" |}.
Proof.
  split; [reflexivity|].
  apply (validateField_ignores_padding "  " "ann@example.org" " " "email" true);
    reflexivity.
Defined.

Lemma validateField_marks_witness :
  Main.errors
    (fst (Main.validateField
            {| Main.value := "ann@example"; Main.required := true;
               Main.type := "email" |}
            {| Main.flagged := true; Main.errors := ["This field is required"];
               Main.ariaInvalid := Some "true" |})) =
  ["Please enter a valid email address"].
Proof.
  apply (validateField_marks
           {| Main.value := "ann@example"; Main.required := true;
              Main.type := "email" |}
           {| Main.flagged := true; Main.errors := ["This field is required"];
              Main.ariaInvalid := Some "true" |}).
  simpl. lia.
Defined.

Lemma on_submit_decides_witness :
  snd (Main.on_submit
         [ ({| Main.value := "Ann"; Main.required := true;
               Main.type := "text" |},
            {| Main.flagged := false; Main.errors := [];
               Main.ariaInvalid := None |});
           ({| Main.value := "not an address"; Main.required := false;
               Main.type := "email" |},
            {| Main.flagged := true;
               Main.errors := ["Please enter a valid email address"];
               Main.ariaInvalid := Some "true" |}) ]) = Main.Submitted.
Proof.
  apply (proj2 (on_submit_decides _)).
  intros f m [[= <- <-]|[[= <- <-]|[]]] Hreq.
  - split; [discriminate|]. intros E. discriminate E.
  - discriminate Hreq.
Defined.

Lemma menu_stays_in_step_witness :
  Main.in_step
    (fold_left Main.menu_step
       [Main.HamburgerClick; Main.KeyDown "Tab"; Main.KeyDown "Escape";
        Main.HamburgerClick; Main.LinkClick]
       {| Main.ariaExpanded := None; Main.hamburgerActive := false;
          Main.navActive := false; Main.bodyOverflow := "";
          Main.hamburgerFocused := false |}).
Proof.
  apply (menu_stays_in_step
           {| Main.ariaExpanded := None; Main.hamburgerActive := false;
              Main.navActive := false; Main.bodyOverflow := "";
              Main.hamburgerFocused := false |}).
  unfold Main.in_step. simpl. repeat split; discriminate.
Defined.

